(** * Agent memory manager of EduAI: a shallow embedding

    Source: [fastapi-backend/app/core/agent_memory.py], class
    [AgentMemoryManager].  The SQLite tables are lists of rows in rowid
    (insertion) order, the networkx [DiGraph] mirror is an insertion-ordered
    adjacency structure, [datetime.now()] is an oracle indexed by the number
    of readings made so far, and the sentence-transformer model is a
    function that may fail. *)

From Stdlib Require Import List String Ascii Bool ZArith QArith Lia.
From Stdlib Require Import Permutation Sorted.
From Stdlib Require Import Decimal DecimalString DecimalZ.
Import ListNotations.

Local Close Scope Q_scope.
Local Open Scope string_scope.
Local Open Scope list_scope.
Local Open Scope Z_scope.

(** ** Text

    Python [str] values are modelled by [string], a text standing for its
    UTF-8 encoding; the case mapping and the regular-expression classes
    below are the ASCII ones. *)

Module Text.

(** [needle in s] *)
Fixpoint contains (needle s : string) : bool :=
  if prefix needle s then true
  else match s with
       | EmptyString => false
       | String _ s' => contains needle s'
       end.

Definition lower_ascii (c : ascii) : ascii :=
  let n := nat_of_ascii c in
  if (Nat.leb 65 n && Nat.leb n 90)%bool then ascii_of_nat (n + 32) else c.

(** [s.lower()] *)
Fixpoint lower (s : string) : string :=
  match s with
  | EmptyString => EmptyString
  | String c s' => String (lower_ascii c) (lower s')
  end.

(** [s.split(":", 1)[1]], defined when [":" in s]. *)
Fixpoint after_colon (s : string) : option string :=
  match s with
  | EmptyString => None
  | String c s' => if Ascii.eqb c ":" then Some s' else after_colon s'
  end.

(** [s.split(":", 1)[0]] *)
Fixpoint before_colon (s : string) : string :=
  match s with
  | EmptyString => EmptyString
  | String c s' => if Ascii.eqb c ":" then EmptyString else String c (before_colon s')
  end.

(** [str(n)] for an [int]. *)
Definition str_int (n : Z) : string := NilEmpty.string_of_int (Z.to_int n).

End Text.

Import Text.

(** ** The pattern [day\s*(\d+)] of [_extract_concepts] *)

Module DayPattern.

(** [\s] and [\d] on ASCII text. *)
Definition is_space (c : ascii) : bool :=
  let n := nat_of_ascii c in
  ((Nat.leb 9 n && Nat.leb n 13) || (Nat.leb 28 n && Nat.leb n 32))%bool.

Definition is_digit (c : ascii) : bool :=
  let n := nat_of_ascii c in (Nat.leb 48 n && Nat.leb n 57)%bool.

(** Longest prefix of characters satisfying [p], with the rest. *)
Fixpoint span (p : ascii -> bool) (s : string) : string * string :=
  match s with
  | EmptyString => (EmptyString, EmptyString)
  | String c s' =>
      if p c then let (a, b) := span p s' in (String c a, b)
      else (EmptyString, s)
  end.

(** A match anchored at the start of [s]: the captured digits and the length
    of the whole match.  The two greedy classes are disjoint, so the first
    attempt of the backtracking matcher is the only one that can succeed. *)
Definition match_here (s : string) : option (string * nat) :=
  if prefix "day" s then
    let rest := substring 3 (String.length s - 3) s in
    let (ws, rest') := span is_space rest in
    let (ds, _) := span is_digit rest' in
    match ds with
    | EmptyString => None
    | _ => Some (ds, (3 + String.length ws + String.length ds)%nat)
    end
  else None.

(** [re.findall]: leftmost matches, scanning resumes after each match.
    [skip] counts the characters of the current match still to be passed. *)
Fixpoint findall_from (skip : nat) (s : string) : list string :=
  match s with
  | EmptyString => []
  | String _ s' =>
      match skip with
      | S k => findall_from k s'
      | O =>
          match match_here s with
          | Some (ds, len) => ds :: findall_from (len - 1) s'
          | None => findall_from 0 s'
          end
      end
  end.

Definition findall (s : string) : list string := findall_from 0 s.

End DayPattern.

(** ** JSON values and Python dictionaries with string keys *)

#[local] Unset Elimination Schemes.
Inductive json : Type :=
| JNull
| JBool (b : bool)
| JInt (n : Z)
| JStr (s : string)
| JArr (xs : list json)
| JObj (kv : list (string * json)).
#[local] Set Elimination Schemes.

Definition dict (V : Type) : Type := list (string * V).

Fixpoint dict_get {V : Type} (k : string) (d : dict V) : option V :=
  match d with
  | [] => None
  | (k', v) :: d' => if String.eqb k' k then Some v else dict_get k d'
  end.

(** [d[k] = v]: replaces in place, or appends a new key. *)
Fixpoint dict_set {V : Type} (k : string) (v : V) (d : dict V) : dict V :=
  match d with
  | [] => [(k, v)]
  | (k', v') :: d' =>
      if String.eqb k' k then (k', v) :: d' else (k', v') :: dict_set k v d'
  end.

Definition dict_mem {V : Type} (k : string) (d : dict V) : bool :=
  match dict_get k d with Some _ => true | None => false end.

(** ** The in-memory graph: [networkx.DiGraph]

    [_adj] maps every node to the dictionary of its successors; both levels
    keep insertion order.  Between an ordered pair of nodes there is at most
    one edge: [add_edge] on an existing pair updates its attributes. *)

Module DiGraph.

Record EdgeData : Type := mkEdgeData { relationship : string; weight : Q }.

Definition t : Type := dict (dict EdgeData).

Definition empty : t := [].

(** [n in G] *)
Definition has_node (n : string) (g : t) : bool := dict_mem n g.

Definition add_node (n : string) (g : t) : t :=
  if has_node n g then g else g ++ [(n, [])].

Definition successors (n : string) (g : t) : dict EdgeData :=
  match dict_get n g with Some a => a | None => [] end.

(** [list(G.neighbors(n))] *)
Definition neighbors (n : string) (g : t) : list string :=
  map fst (successors n g).

(** [G.get_edge_data(u, v)] *)
Definition get_edge_data (u v : string) (g : t) : option EdgeData :=
  dict_get v (successors u g).

(** [G.add_edge(u, v, relationship=r, weight=w)] *)
Definition add_edge (u v : string) (d : EdgeData) (g : t) : t :=
  let g1 := add_node v (add_node u g) in
  dict_set u (dict_set v d (successors u g1)) g1.

End DiGraph.

Import DiGraph.

(** ** Rows, the manager state and its environment *)

Definition Vec : Type := list Q.

Inductive MemoryType : Type := conversation | episodic | semantic.

Definition MemoryType_eqb (a b : MemoryType) : bool :=
  match a, b with
  | conversation, conversation | episodic, episodic | semantic, semantic => true
  | _, _ => false
  end.

(** The dataclass [MemoryEntry].  Timestamps are counted in microseconds;
    [isoformat()] texts of naive datetimes compare like these counts. *)
Record MemoryEntry : Type := mkMemoryEntry {
  user_id : Z;
  content : string;
  memory_type : MemoryType;
  metadata : dict json;
  timestamp : Z;
  embedding : option Vec
}.

(** A row of table [memory_entries].  The [metadata] and [embedding] columns
    hold JSON text; they are kept here as the values that text denotes. *)
Record EntryRow : Type := mkEntryRow {
  row_user_id : Z;
  row_content : string;
  row_memory_type : MemoryType;
  row_metadata : dict json;
  row_timestamp : Z;
  row_embedding : Vec
}.

(** A row of table [knowledge_graph]. *)
Record EdgeRow : Type := mkEdgeRow {
  edge_user_id : Z;
  source_node : string;
  target_node : string;
  edge_relationship : string;
  edge_weight : Q;
  edge_timestamp : Z
}.

(** The manager: the two tables of the database file, the in-memory graph
    [self.knowledge_graph], and the number of clock readings made so far. *)
Record Manager : Type := mkManager {
  memory_entries : list EntryRow;
  knowledge_graph_table : list EdgeRow;
  knowledge_graph : DiGraph.t;
  clock_reads : nat
}.

Definition init : Manager := mkManager [] [] DiGraph.empty 0.

(** What the manager calls but does not define: the system clock, the
    embedding model ([None] when [encode] raises) and numpy's cosine
    expression on two vectors ([None] when it evaluates to nan). *)
Class World : Type := {
  clock : nat -> Z;
  encode : string -> option Vec;
  similarity : Vec -> Vec -> option Q
}.

Inductive exn : Type := EmbeddingError | TypeError | OverflowError.

Inductive result (A : Type) : Type :=
| Ok (a : A)
| Raise (e : exn).
Arguments Ok {A} a.
Arguments Raise {A} e.

(** Methods that change the manager: a result and the state left behind,
    also when an exception escapes. *)
Definition M (A : Type) : Type := Manager -> result A * Manager.

Definition ret {A : Type} (a : A) : M A := fun m => (Ok a, m).

Definition raise {A : Type} (e : exn) : M A := fun m => (Raise e, m).

Definition bind {A B : Type} (c : M A) (k : A -> M B) : M B :=
  fun m => match c m with
           | (Ok a, m') => k a m'
           | (Raise e, m') => (Raise e, m')
           end.

Notation "x <- c ;; k" := (bind c (fun x => k))
  (at level 61, c at next level, right associativity).
Notation "c ;;; k" := (bind c (fun _ => k))
  (at level 61, right associativity).

Fixpoint for_each {A : Type} (xs : list A) (body : A -> M unit) : M unit :=
  match xs with
  | [] => ret tt
  | x :: xs' => body x ;;; for_each xs' body
  end.

(** The state a method leaves behind. *)
Definition exec {A : Type} (c : M A) (m : Manager) : Manager := snd (c m).

Definition microseconds_per_day : Z := 86400000000.

(** [timedelta(days=n)], in microseconds: Python refuses a number of days
    of magnitude above 999999999 with [OverflowError] ([None] here). *)
Definition timedelta_days (n : Z) : option Z :=
  if Z.abs n <=? 999999999 then Some (n * microseconds_per_day) else None.

(** [datetime.min] (year 1) and [datetime.max] (the last microsecond of year
    9999), in microseconds on the clock's scale. *)
Definition datetime_min : Z := -62135596800000000.
Definition datetime_max : Z := 253402300799999999.

(** [t - delta] on a [datetime]: a result outside [datetime.min ..
    datetime.max] is refused with [OverflowError] ([None] here). *)
Definition datetime_sub (t delta : Z) : option Z :=
  let d := t - delta in
  if ((datetime_min <=? d) && (d <=? datetime_max))%bool then Some d else None.

Definition user_node (user_id : Z) (label : string) : string :=
  (str_int user_id ++ ":" ++ label)%string.

(** [x.split(":", 1)[1] if ":" in x else x] *)
Definition clean_neighbor (neighbor : string) : string :=
  match after_colon neighbor with Some r => r | None => neighbor end.

(** ** Sorting and slicing as the queries use them *)

Section Ordering.
Context {A : Type}.

(** [above y x] tells that [y] has a strictly larger key than [x].  Python's
    [sort(key=..., reverse=True)] is stable: among equal keys the earlier
    element stays first. *)
Variable above : A -> A -> bool.

Fixpoint insert_desc (x : A) (l : list A) : list A :=
  match l with
  | [] => [x]
  | y :: l' => if above y x then y :: insert_desc x l' else x :: l
  end.

Definition sort_desc (l : list A) : list A := fold_right insert_desc [] l.

(** [l[:limit]] *)
Definition slice_to (limit : Z) (l : list A) : list A :=
  if 0 <=? limit then firstn (Z.to_nat limit) l
  else firstn (Z.to_nat (Z.of_nat (List.length l) + limit)) l.

(** SQL [LIMIT limit]: a negative limit means no bound. *)
Definition sql_limit (limit : Z) (l : list A) : list A :=
  if limit <? 0 then l else firstn (Z.to_nat limit) l.

End Ordering.

(** ** The methods of [AgentMemoryManager] *)

Section Methods.
Context {W : World}.

(** [datetime.now()] *)
Definition now : M Z :=
  fun m => (Ok (clock (clock_reads m)),
            mkManager (memory_entries m) (knowledge_graph_table m)
                      (knowledge_graph m) (S (clock_reads m))).

Definition insert_memory_entry (r : EntryRow) : M unit :=
  fun m => (Ok tt,
            mkManager (memory_entries m ++ [r]) (knowledge_graph_table m)
                      (knowledge_graph m) (clock_reads m)).

Definition insert_knowledge_graph (r : EdgeRow) : M unit :=
  fun m => (Ok tt,
            mkManager (memory_entries m) (knowledge_graph_table m ++ [r])
                      (knowledge_graph m) (clock_reads m)).

Definition update_graph (f : DiGraph.t -> DiGraph.t) : M unit :=
  fun m => (Ok tt,
            mkManager (memory_entries m) (knowledge_graph_table m)
                      (f (knowledge_graph m)) (clock_reads m)).

Definition _store_entry (entry : MemoryEntry) : M unit :=
  match encode (content entry) with
  | None => raise EmbeddingError
  | Some embedding =>
      insert_memory_entry
        (mkEntryRow (user_id entry) (content entry) (memory_type entry)
                    (metadata entry) (timestamp entry) embedding)
  end.

Definition _add_to_graph (user_id : Z) (source target relationship : string)
    (weight : Q) : M unit :=
  t <- now ;;
  insert_knowledge_graph
    (mkEdgeRow user_id source target relationship weight t) ;;;
  update_graph (DiGraph.add_edge (user_node user_id source)
                                 (user_node user_id target)
                                 (mkEdgeData relationship weight)).

Definition default_weight : Q := 1%Q.

Definition newline : string := String "010"%char EmptyString.

Definition store_conversation (user_id : Z) (user_message ai_response : string)
    (tools_used : option (list string)) : M unit :=
  let conversation_data :=
    [("user_message", JStr user_message);
     ("ai_response", JStr ai_response);
     ("tools_used",
      JArr (map JStr (match tools_used with
                      | Some (t :: ts) => t :: ts
                      | _ => []
                      end)))] in
  t <- now ;;
  _store_entry
    (mkMemoryEntry user_id
       ("User: " ++ user_message ++ newline ++ "AI: " ++ ai_response)%string
       conversation conversation_data t None).

(** The [target: str] parameter of [_add_to_graph]: a metadata value that is
    not a string is reported by the model as [TypeError]. *)
Definition as_str (v : json) : M string :=
  match v with
  | JStr s => ret s
  | _ => raise TypeError
  end.

Definition store_episodic (user_id : Z) (action : string)
    (result : dict json) : M unit :=
  t <- now ;;
  _store_entry
    (mkMemoryEntry user_id ("Action: " ++ action)%string episodic result t None) ;;;
  (match dict_get "youtube_link" result with
   | Some v =>
       link <- as_str v ;;
       _add_to_graph user_id action link "created_link" default_weight
   | None => ret tt
   end) ;;;
  (match dict_get "playlist_name" result with
   | Some v =>
       name <- as_str v ;;
       _add_to_graph user_id action name "created_playlist" default_weight
   | None => ret tt
   end).

Definition store_semantic (user_id : Z) (concept : string)
    (related_concepts : list string) : M unit :=
  t <- now ;;
  _store_entry
    (mkMemoryEntry user_id concept semantic
       [("related_concepts", JArr (map JStr related_concepts))] t None) ;;;
  for_each related_concepts
    (fun related =>
       _add_to_graph user_id concept related "related_to" default_weight).

Definition link_concepts (user_id : Z)
    (source_concept target_concept relationship : string) : M unit :=
  _add_to_graph user_id source_concept target_concept relationship
    default_weight ;;;
  let reverse_rel := ("reverse_" ++ relationship)%string in
  _add_to_graph user_id target_concept source_concept reverse_rel
    default_weight.

Definition create_learning_path_graph (user_id day : Z) (concept : string)
    (resources : list string) : M unit :=
  let day_node := ("day_" ++ str_int day)%string in
  link_concepts user_id day_node concept "teaches" ;;;
  for_each resources
    (fun resource =>
       if (contains "youtube" resource || contains "video" resource)%bool then
         link_concepts user_id concept resource "video_resource"
       else if (contains "notes" resource || contains "drive" resource)%bool then
         link_concepts user_id concept resource "note_resource"
       else ret tt).

(** [DELETE FROM memory_entries WHERE ...]: the rows failing [keep] go. *)
Definition delete_memory_entries (keep : EntryRow -> bool) : M unit :=
  fun m =>
    (Ok tt,
     mkManager (filter keep (memory_entries m)) (knowledge_graph_table m)
               (knowledge_graph m) (clock_reads m)).

(** Line 375 evaluates [datetime.now()], then [timedelta(days=days)], then
    the difference; either of the last two can raise [OverflowError], and
    then the [DELETE] of lines 379-383 is not reached. *)
Definition cleanup_old_memories (user_id days : Z) : M unit :=
  t <- now ;;
  match timedelta_days days with
  | None => raise OverflowError
  | Some delta =>
      match datetime_sub t delta with
      | None => raise OverflowError
      | Some cutoff_date =>
          delete_memory_entries
            (fun r => negb ((row_user_id r =? user_id)
                            && (row_timestamp r <? cutoff_date)
                            && MemoryType_eqb (row_memory_type r) conversation))
      end
  end.

End Methods.

(** ** The read methods *)

(** The dictionaries returned by [recall_conversation]. *)
Record Recalled : Type := mkRecalled {
  rc_content : string;
  rc_metadata : dict json;
  rc_timestamp : Z
}.

(** The dictionaries returned by [semantic_search]. *)
Record Hit : Type := mkHit {
  hit_content : string;
  hit_metadata : dict json;
  hit_timestamp : Z;
  hit_similarity : Q
}.

(** The dictionary returned by [get_graph_context]. *)
Record GraphContext : Type := mkGraphContext {
  related_notes : list string;
  related_videos : list string;
  concept_dependencies : dict (list string);
  learning_path : list string
}.

Definition later_row (a b : EntryRow) : bool :=
  row_timestamp b <? row_timestamp a.

(** [SELECT content, metadata, timestamp FROM memory_entries
     WHERE user_id = ? AND memory_type = 'conversation'
     ORDER BY timestamp DESC LIMIT ?] *)
Definition recall_conversation (user_id limit : Z) (m : Manager)
    : list Recalled :=
  let rows :=
    sql_limit limit
      (sort_desc later_row
         (filter (fun r => (row_user_id r =? user_id)
                           && MemoryType_eqb (row_memory_type r) conversation)%bool
                 (memory_entries m))) in
  fold_left
    (fun results row =>
       results ++ [mkRecalled (row_content row) (row_metadata row)
                              (row_timestamp row)])
    rows [].

Definition gt_half (s : Q) : bool := negb (Qle_bool s (1 # 2)).

Definition more_similar (a b : Hit) : bool :=
  negb (Qle_bool (hit_similarity a) (hit_similarity b)).

Definition programming_concepts : list string :=
  ["python"; "javascript"; "recursion"; "loops"; "functions"; "variables";
   "classes"; "objects"; "arrays"; "strings"; "algorithms"; "data structures"].

Definition _extract_concepts (text : string) : list string :=
  let text_lower := lower text in
  let found_concepts :=
    fold_left
      (fun found concept =>
         if contains concept text_lower then found ++ [concept] else found)
      programming_concepts [] in
  let day_matches := DayPattern.findall text_lower in
  fold_left (fun found day => found ++ [("day_" ++ day)%string])
            day_matches found_concepts.

Definition get_related_concepts (user_id : Z) (concept : string) (m : Manager)
    : list string :=
  let user_concept := user_node user_id concept in
  if DiGraph.has_node user_concept (knowledge_graph m) then
    fold_left (fun related neighbor => related ++ [clean_neighbor neighbor])
              (DiGraph.neighbors user_concept (knowledge_graph m)) []
  else [].

(** [deps[concept].append(x)], creating the list on first use. *)
Definition append_dependency (concept x : string) (deps : dict (list string))
    : dict (list string) :=
  match dict_get concept deps with
  | Some l => dict_set concept (l ++ [x]) deps
  | None => dict_set concept [x] deps
  end.

(** The body of the loop over the neighbours of one concept. *)
Definition place_neighbor (g : DiGraph.t) (concept user_concept : string)
    (ctx : GraphContext) (neighbor : string) : GraphContext :=
  let relationship :=
    match DiGraph.get_edge_data user_concept neighbor g with
    | Some edge_data => DiGraph.relationship edge_data
    | None => "related"
    end in
  let clean := clean_neighbor neighbor in
  if (contains "note" relationship || contains "day" (lower clean))%bool then
    mkGraphContext (related_notes ctx ++ [clean]) (related_videos ctx)
                   (concept_dependencies ctx) (learning_path ctx)
  else if (contains "video" relationship
           || contains "youtube" (lower clean))%bool then
    mkGraphContext (related_notes ctx) (related_videos ctx ++ [clean])
                   (concept_dependencies ctx) (learning_path ctx)
  else if contains "depends" relationship then
    mkGraphContext (related_notes ctx) (related_videos ctx)
                   (append_dependency concept clean (concept_dependencies ctx))
                   (learning_path ctx)
  else ctx.

(** The body of the loop over the concepts of the query. *)
Definition visit_concept (user_id : Z) (g : DiGraph.t) (ctx : GraphContext)
    (concept : string) : GraphContext :=
  let user_concept := user_node user_id concept in
  if DiGraph.has_node user_concept g then
    fold_left (place_neighbor g concept user_concept)
              (DiGraph.neighbors user_concept g) ctx
  else ctx.

Definition empty_context : GraphContext := mkGraphContext [] [] [] [].

Definition get_graph_context (user_id : Z) (query : string) (m : Manager)
    : GraphContext :=
  let query_concepts := _extract_concepts query in
  fold_left (visit_concept user_id (knowledge_graph m)) query_concepts
            empty_context.

Section Search.
Context {W : World}.

(** The loop of [semantic_search] over the fetched rows. *)
Definition score_row (query_embedding : Vec) (results : list Hit)
    (row : EntryRow) : list Hit :=
  match similarity query_embedding (row_embedding row) with
  | Some s =>
      if gt_half s then
        results ++ [mkHit (row_content row) (row_metadata row)
                          (row_timestamp row) s]
      else results
  | None => results
  end.

Definition semantic_search (user_id : Z) (query : string) (limit : Z)
    (m : Manager) : result (list Hit) :=
  match encode query with
  | None => Raise EmbeddingError
  | Some query_embedding =>
      let rows := filter (fun r => row_user_id r =? user_id) (memory_entries m) in
      let results := fold_left (score_row query_embedding) rows [] in
      Ok (slice_to limit (sort_desc more_similar results))
  end.

End Search.

(** ** Concrete environments and states used by the examples *)

Module Demo.

Fixpoint dot (a b : Vec) : Q :=
  match a, b with
  | x :: a', y :: b' => (x * y + dot a' b')%Q
  | _, _ => 0%Q
  end.

(** A model producing unit vectors of dimension two, as a normalising model
    does; on unit vectors the cosine is the dot product. *)
Definition unit_encode (text : string) : option Vec :=
  Some (if contains "loop" text then [3 # 5; 4 # 5]%Q
        else if contains "video" text then [0; 1]%Q
        else [1; 0]%Q).

Definition unit_similarity (a b : Vec) : option Q :=
  if (Qeq_bool (dot a a) 1 && Qeq_bool (dot b b) 1)%bool
  then Some (dot a b) else None.

(** The clock advances by one second per reading. *)
Definition world : World :=
  {| clock := fun n => 1700000000000000 + 1000000 * Z.of_nat n;
     encode := unit_encode;
     similarity := unit_similarity |}.

(** The same environment with the embedding model out of service. *)
Definition offline : World :=
  {| clock := fun n => 1700000000000000 + 1000000 * Z.of_nat n;
     encode := fun _ => None;
     similarity := unit_similarity |}.

(** A clock that stands still between two sweeps. *)
Definition frozen : World :=
  {| clock := fun _ => 1700000000000000;
     encode := unit_encode;
     similarity := unit_similarity |}.

End Demo.

(** ** Vocabulary of the statements *)

(** The public methods that change the manager. *)
Inductive Call : Type :=
| StoreConversation (user_id : Z) (user_message ai_response : string)
                    (tools_used : option (list string))
| StoreEpisodic (user_id : Z) (action : string) (result : dict json)
| StoreSemantic (user_id : Z) (concept : string) (related_concepts : list string)
| LinkConcepts (user_id : Z) (source_concept target_concept relationship : string)
| CreateLearningPathGraph (user_id day : Z) (concept : string)
                          (resources : list string)
| CleanupOldMemories (user_id days : Z).

Definition call_user (c : Call) : Z :=
  match c with
  | StoreConversation u _ _ _ | StoreEpisodic u _ _ | StoreSemantic u _ _
  | LinkConcepts u _ _ _ | CreateLearningPathGraph u _ _ _
  | CleanupOldMemories u _ => u
  end.

Section Calls.
Context {W : World}.

Definition run_call (c : Call) : M unit :=
  match c with
  | StoreConversation u msg reply tools => store_conversation u msg reply tools
  | StoreEpisodic u action res => store_episodic u action res
  | StoreSemantic u concept related => store_semantic u concept related
  | LinkConcepts u a b r => link_concepts u a b r
  | CreateLearningPathGraph u day concept resources =>
      create_learning_path_graph u day concept resources
  | CleanupOldMemories u days => cleanup_old_memories u days
  end.

(** A caller that goes on after a failed call sees the state it left. *)
Definition run_calls (cs : list Call) (m : Manager) : Manager :=
  fold_left (fun m c => exec (run_call c) m) cs m.

(** The dictionary has a text under the key, or nothing. *)
Definition text_or_absent (key : string) (d : dict json) : Prop :=
  match dict_get key d with
  | Some (JStr _) | None => True
  | Some _ => False
  end.

(** The call gives [store_episodic] its link and its playlist name, if any,
    as texts. *)
Definition text_links (c : Call) : Prop :=
  match c with
  | StoreEpisodic _ _ result =>
      text_or_absent "youtube_link" result
      /\ text_or_absent "playlist_name" result
  | _ => True
  end.

(** Every stored row carries the embedding of its own content. *)
Definition embedded (m : Manager) : Prop :=
  Forall (fun r => encode (row_content r) = Some (row_embedding r))
         (memory_entries m).

End Calls.

(** The two tables and the graph are as before. *)
Definition same_stores (m m' : Manager) : Prop :=
  memory_entries m' = memory_entries m /\
  knowledge_graph_table m' = knowledge_graph_table m /\
  knowledge_graph m' = knowledge_graph m.

(** The call raised the embedding error and wrote nothing. *)
Definition aborted (c : M unit) (m : Manager) : Prop :=
  fst (c m) = Raise EmbeddingError /\ same_stores m (snd (c m)).

(** The row is a conversation entry of the user. *)
Definition conversation_of (u : Z) (r : EntryRow) : bool :=
  ((row_user_id r =? u) && MemoryType_eqb (row_memory_type r) conversation)%bool.

(** Retention rule: a conversation entry of the user older than the cutoff. *)
Definition expired (u cutoff : Z) (r : EntryRow) : Prop :=
  row_user_id r = u /\ row_memory_type r = conversation /\
  row_timestamp r < cutoff.

(** The rows that the [DELETE] of [cleanup_old_memories] leaves in place. *)
Definition swept (u cutoff : Z) (r : EntryRow) : bool :=
  negb ((row_user_id r =? u) && (row_timestamp r <? cutoff)
        && MemoryType_eqb (row_memory_type r) conversation).

(** The cutoff [now - days] of the sweep is a [datetime]: the number of days
    is one [timedelta] accepts and the difference lies between
    [datetime.min] and [datetime.max]. *)
Definition representable_cutoff (t days : Z) : Prop :=
  Z.abs days <= 999999999 /\
  datetime_min <= t - days * microseconds_per_day <= datetime_max.

(** The retention rule read for every number of days: after the sweep the
    entries left are those that were not expired at [now - days]. *)
Definition sweep_as_specified {W : World} (u days : Z) (m : Manager) : Prop :=
  let cutoff := clock (clock_reads m) - days * microseconds_per_day in
  forall r,
    In r (memory_entries (exec (cleanup_old_memories u days) m)) <->
    In r (memory_entries m) /\ ~ expired u cutoff r.

Definition newest_first (l : list Recalled) : Prop :=
  StronglySorted (fun a b => rc_timestamp b <= rc_timestamp a) l.

Section SearchVocabulary.
Context {W : World}.

(** The hit an entry yields for a query embedding: none unless its cosine
    similarity is a number strictly above one half. *)
Definition hit_of (query_embedding : Vec) (r : EntryRow) : list Hit :=
  match similarity query_embedding (row_embedding r) with
  | Some s =>
      if Qlt_le_dec (1 # 2) s
      then [mkHit (row_content r) (row_metadata r) (row_timestamp r) s]
      else []
  | None => []
  end.

(** All hits among the entries of user [u], in storage order. *)
Definition matches (query_embedding : Vec) (u : Z) (m : Manager) : list Hit :=
  flat_map (hit_of query_embedding)
           (filter (fun r => row_user_id r =? u) (memory_entries m)).

Definition by_similarity (l : list Hit) : Prop :=
  StronglySorted (fun a b => (hit_similarity b <= hit_similarity a)%Q) l.

(** The search contract: the first [k] of the user's hits ranked by
    similarity, highest first. *)
Definition search_contract (u : Z) (q : string) (k : Z) (m : Manager) : Prop :=
  forall query_embedding,
    encode q = Some query_embedding ->
    exists ranked,
      Permutation ranked (matches query_embedding u m) /\
      by_similarity ranked /\
      semantic_search u q k m = Ok (firstn (Z.to_nat k) ranked).

End SearchVocabulary.

(** Three semantic entries of user 1, stored in this order. *)
Definition three_entries : Manager :=
  Eval vm_compute in
    exec (store_semantic (W := Demo.world) 1 "loop a" [] ;;;
          store_semantic (W := Demo.world) 1 "b" [] ;;;
          store_semantic (W := Demo.world) 1 "video" []) init.

(** The relationship labels that the graph holds on edges from [u:a] to
    [u:b], one per edge. *)
Definition edge_labels (u : Z) (a b : string) (m : Manager) : list string :=
  map (fun p => DiGraph.relationship (snd p))
      (filter (fun p => String.eqb (fst p) (user_node u b))
              (DiGraph.successors (user_node u a) (knowledge_graph m))).

(** The relationship labels of the rows of table [knowledge_graph] from [a]
    to [b] for user [u]. *)
Definition stored_labels (u : Z) (a b : string) (m : Manager) : list string :=
  map edge_relationship
      (filter (fun r => (edge_user_id r =? u) && String.eqb (source_node r) a
                        && String.eqb (target_node r) b)%bool
              (knowledge_graph_table m)).

(** No node lists a successor twice. *)
Definition simple_graph (g : DiGraph.t) : Prop :=
  forall n, NoDup (DiGraph.neighbors n g).

Section GraphVocabulary.
Context {W : World}.

(** The multigraph reading: after two insertions between the same ordered
    pair with different labels, both labels are in the table and both are
    on edges of the graph. *)
Definition multigraph_contract (u : Z) (a b r1 r2 : string) (m : Manager)
    : Prop :=
  r1 <> r2 ->
  let m' := exec (_add_to_graph u a b r1 default_weight ;;;
                  _add_to_graph u a b r2 default_weight) m in
  (In r1 (stored_labels u a b m') /\ In r2 (stored_labels u a b m')) /\
  (In r1 (edge_labels u a b m') /\ In r2 (edge_labels u a b m')).

End GraphVocabulary.

(** What identifies an edge row apart from its weight and time. *)
Definition edge_key (r : EdgeRow) : Z * string * string * string :=
  (edge_user_id r, source_node r, target_node r, edge_relationship r).

Section SemanticVocabulary.
Context {W : World}.

(** Directionality as the specification words it: a concept [x] of the list
    that did not have [c] among its related concepts does not have it after
    [store_semantic u c related]. *)
Definition forward_only_contract (u : Z) (c : string) (related : list string)
    (m : Manager) : Prop :=
  forall x,
    In x related ->
    ~ In c (get_related_concepts u x m) ->
    ~ In c (get_related_concepts u x (exec (store_semantic u c related) m)).

End SemanticVocabulary.

(** The successors of [node] are as before. *)
Definition keeps_successors (node : string) (m m' : Manager) : Prop :=
  DiGraph.successors node (knowledge_graph m') =
  DiGraph.successors node (knowledge_graph m).

(** Every edge of the graph joins two nodes of one user. *)
Definition user_scoped (g : DiGraph.t) : Prop :=
  forall n v,
    In v (DiGraph.neighbors n g) ->
    exists u a b, n = user_node u a /\ v = user_node u b.

(** User 1 holds [python -> loops]; user 2 then writes about the same
    concept label. *)
Definition python_of_user_1 : Manager :=
  Eval vm_compute in
    exec (store_semantic (W := Demo.world) 1 "python" ["loops"]) init.

Definition writes_of_user_2 : list Call :=
  [StoreSemantic 2 "python" ["recursion"];
   LinkConcepts 2 "python" "day_1" "note_resource";
   CreateLearningPathGraph 2 3 "python" ["youtube.com/v"; "drive/notes"];
   StoreEpisodic 2 "create_playlist" [("playlist_name", JStr "python")]].

(** The resource text carries one of the four words that
    [create_learning_path_graph] looks for. *)
Definition has_resource_keyword (resource : string) : bool :=
  (contains "youtube" resource || contains "video" resource
   || contains "notes" resource || contains "drive" resource)%bool.

(** Between [m] and [m'] no row naming [label] was appended for user [u],
    and in the graph the node [u:label] got no new edge, in or out. *)
Definition untouched (u : Z) (label : string) (m m' : Manager) : Prop :=
  (exists rows,
      knowledge_graph_table m' = knowledge_graph_table m ++ rows /\
      Forall (fun row => source_node row <> label /\ target_node row <> label)
             rows) /\
  keeps_successors (user_node u label) m m' /\
  (forall n,
      In (user_node u label) (DiGraph.neighbors n (knowledge_graph m')) ->
      In (user_node u label) (DiGraph.neighbors n (knowledge_graph m))).

(** The tests of the first two branches of the classification. *)
Definition note_like (relationship clean : string) : bool :=
  (contains "note" relationship || contains "day" (lower clean))%bool.

Definition video_like (relationship clean : string) : bool :=
  (contains "video" relationship || contains "youtube" (lower clean))%bool.

(** Where the context must hold a neighbour, by the first branch that
    applies to it. *)
Definition classified (concept relationship clean : string)
    (ctx : GraphContext) : Prop :=
  (note_like relationship clean = true -> In clean (related_notes ctx)) /\
  (note_like relationship clean = false ->
   video_like relationship clean = true ->
   In clean (related_videos ctx)) /\
  (note_like relationship clean = false ->
   video_like relationship clean = false ->
   contains "depends" relationship = true ->
   exists l, dict_get concept (concept_dependencies ctx) = Some l /\ In clean l).

(** The relationship that the loop reads on the edge to a neighbour. *)
Definition relationship_read (g : DiGraph.t) (user_concept neighbor : string)
    : string :=
  match DiGraph.get_edge_data user_concept neighbor g with
  | Some edge_data => DiGraph.relationship edge_data
  | None => "related"
  end.

Inductive Bucket : Type := Notes | Videos | Dependencies | Nowhere.

Definition Bucket_eqb (a b : Bucket) : bool :=
  match a, b with
  | Notes, Notes | Videos, Videos | Dependencies, Dependencies
  | Nowhere, Nowhere => true
  | _, _ => false
  end.

(** The one bucket of a neighbour: that of the first test it passes. *)
Definition first_match (relationship clean : string) : Bucket :=
  if note_like relationship clean then Notes
  else if video_like relationship clean then Videos
  else if contains "depends" relationship then Dependencies
  else Nowhere.

Definition in_bucket (g : DiGraph.t) (b : Bucket) (user_concept neighbor : string)
    : bool :=
  Bucket_eqb (first_match (relationship_read g user_concept neighbor)
                          (clean_neighbor neighbor)) b.

(** The clean labels of the neighbours of a concept whose bucket is [b], in
    the order of the neighbours; none when the concept has no node. *)
Definition filed (u : Z) (g : DiGraph.t) (b : Bucket) (concept : string)
    : list string :=
  let user_concept := user_node u concept in
  if DiGraph.has_node user_concept g then
    map clean_neighbor
        (filter (in_bucket g b user_concept) (DiGraph.neighbors user_concept g))
  else [].

(** What a dictionary entry becomes when a run of appends is made to it. *)
Definition add_list (found : option (list string)) (l : list string)
    : option (list string) :=
  match l with
  | [] => found
  | _ :: _ => Some (match found with Some l0 => l0 ++ l | None => l end)
  end.

(** A dictionary entry exists only for a list that is not empty. *)
Definition listed (l : list string) : option (list string) :=
  match l with
  | [] => None
  | _ :: _ => Some l
  end.

(** The context in which every neighbour of every concept of the query sits
    in the bucket of the first test it passes and in no other, concept by
    concept and neighbour by neighbour. *)
Definition first_match_context (u : Z) (query : string) (m : Manager)
    (ctx : GraphContext) : Prop :=
  let g := knowledge_graph m in
  let concepts := _extract_concepts query in
  related_notes ctx = flat_map (filed u g Notes) concepts /\
  related_videos ctx = flat_map (filed u g Videos) concepts /\
  (forall concept,
      dict_get concept (concept_dependencies ctx) =
      listed (flat_map (fun c => if String.eqb c concept
                                 then filed u g Dependencies c else [])
                       concepts)) /\
  learning_path ctx = [].

(** The second context holds everything the first one holds. *)
Definition grows (c1 c2 : GraphContext) : Prop :=
  incl (related_notes c1) (related_notes c2) /\
  incl (related_videos c1) (related_videos c2) /\
  (forall k l x,
      dict_get k (concept_dependencies c1) = Some l -> In x l ->
      exists l', dict_get k (concept_dependencies c2) = Some l' /\ In x l').

(** Classification as the specification words it: the relationship alone
    decides the bucket. *)
Definition classification_contract (u : Z) (query : string) (m : Manager)
    : Prop :=
  forall concept neighbor edge_data,
    In concept (_extract_concepts query) ->
    In neighbor (DiGraph.neighbors (user_node u concept) (knowledge_graph m)) ->
    DiGraph.get_edge_data (user_node u concept) neighbor (knowledge_graph m)
      = Some edge_data ->
    let ctx := get_graph_context u query m in
    (DiGraph.relationship edge_data = "note_resource" ->
     In (clean_neighbor neighbor) (related_notes ctx)) /\
    (DiGraph.relationship edge_data = "video_resource" ->
     In (clean_neighbor neighbor) (related_videos ctx)) /\
    (contains "depends" (DiGraph.relationship edge_data) = true ->
     exists l,
       dict_get concept (concept_dependencies ctx) = Some l /\
       In (clean_neighbor neighbor) l).

(** A learning path of user 1 whose video resource has "day" in its name. *)
Definition monday_video : Manager :=
  Eval vm_compute in
    exec (create_learning_path_graph (W := Demo.world) 1 1 "python"
                                     ["monday_video"]) init.

(** A graph of user 1 with one resource of each kind on "python". *)
Definition python_resources : Manager :=
  Eval vm_compute in
    exec (create_learning_path_graph (W := Demo.world) 1 0 "python"
            ["lecture video"; "drive/notes.pdf"] ;;;
          _add_to_graph (W := Demo.world) 1 "python" "variables" "depends_on"
                        default_weight) init.

(** The text has no colon in it. *)
Definition colon_free (s : string) : Prop :=
  forall c, In c (list_ascii_of_string s) -> c <> ":"%char.

(** The method [c] takes every state [m] to a state related to it by [R]. *)
Definition respects (R : Manager -> Manager -> Prop) {A : Type} (c : M A)
    : Prop :=
  forall m, R m (snd (c m)).

(** ** The remaining read methods *)

(** SQLite's [LIKE] on the UTF-8 text it is given: ["%"] stands for any run
    of characters, ["_"] for any single character, which in UTF-8 is a byte
    and, when that byte is 0xC0 or above, the continuation bytes (0x80 to
    0xBF) after it; letters compare without regard to ASCII case. *)
Definition eqb_nocase (a b : ascii) : bool :=
  Ascii.eqb (lower_ascii a) (lower_ascii b).

Definition is_continuation (c : ascii) : bool :=
  let n := nat_of_ascii c in (Nat.leb 128 n && Nat.leb n 191)%bool.

Fixpoint skip_continuation (s : string) : string :=
  match s with
  | EmptyString => EmptyString
  | String c s' => if is_continuation c then skip_continuation s' else s
  end.

(** What is left of a text after its first character, whose first byte is
    [c]. *)
Definition after_character (c : ascii) (s' : string) : string :=
  if Nat.leb 192 (nat_of_ascii c) then skip_continuation s' else s'.

Fixpoint like_chars (pattern : string) : string -> bool :=
  match pattern with
  | EmptyString =>
      fun s => match s with EmptyString => true | String _ _ => false end
  | String p pattern' =>
      if Ascii.eqb p "%" then
        fix from_some_suffix (s : string) : bool :=
          (like_chars pattern' s
           || match s with
              | EmptyString => false
              | String _ s' => from_some_suffix s'
              end)%bool
      else if Ascii.eqb p "_" then
        fun s => match s with
                 | EmptyString => false
                 | String c s' => like_chars pattern' (after_character c s')
                 end
      else
        fun s => match s with
                 | EmptyString => false
                 | String c s' => (eqb_nocase p c && like_chars pattern' s')%bool
                 end
  end.

(** SQLite reads both operands of [LIKE] as C strings: each ends at its
    first NUL byte, if it has one. *)
Fixpoint c_string (s : string) : string :=
  match s with
  | EmptyString => EmptyString
  | String c s' =>
      if Ascii.eqb c Ascii.zero then EmptyString else String c (c_string s')
  end.

(** [text LIKE pattern] *)
Definition like (pattern text : string) : bool :=
  like_chars (c_string pattern) (c_string text).

(** The [WHERE] clause of [recall_episodic]; an absent or empty
    [action_type] adds no condition. *)
Definition episodic_of (user_id : Z) (action_type : option string)
    (r : EntryRow) : bool :=
  ((row_user_id r =? user_id)
   && MemoryType_eqb (row_memory_type r) episodic
   && match action_type with
      | Some (String c a) =>
          like ("%" ++ String c a ++ "%")%string (row_content r)
      | _ => true
      end)%bool.

Definition recall_episodic (user_id : Z) (action_type : option string)
    (m : Manager) : list Recalled :=
  let rows :=
    sql_limit 20
      (sort_desc later_row
         (filter (episodic_of user_id action_type) (memory_entries m))) in
  fold_left
    (fun results row =>
       results ++ [mkRecalled (row_content row) (row_metadata row)
                              (row_timestamp row)])
    rows [].

(** The loop of [get_last_youtube_link]: the value under the key in the
    first memory that has it. *)
Fixpoint first_with_key (key : string) (memories : list Recalled)
    : option json :=
  match memories with
  | [] => None
  | memory :: rest =>
      match dict_get key (rc_metadata memory) with
      | Some v => Some v
      | None => first_with_key key rest
      end
  end.

Definition get_last_youtube_link (user_id : Z) (m : Manager) : option json :=
  first_with_key "youtube_link" (recall_episodic user_id (Some "youtube") m).

(** Python equality on the values that can be members of a [set]; [True]
    and [False] equal [1] and [0]. *)
Definition py_eqb (a b : json) : bool :=
  match a, b with
  | JNull, JNull => true
  | JBool x, JBool y => Bool.eqb x y
  | JInt x, JInt y => x =? y
  | JBool x, JInt y | JInt y, JBool x => y =? (if x then 1 else 0)
  | JStr x, JStr y => String.eqb x y
  | _, _ => false
  end.

Definition hashable (v : json) : bool :=
  match v with
  | JArr _ | JObj _ => false
  | _ => true
  end.

(** [list(set(xs))] keeps one member of each class of equal values; the
    order in which Python lists them is not fixed, the model lists them in
    order of first occurrence. *)
Fixpoint distinct (xs : list json) : list json :=
  match xs with
  | [] => []
  | x :: xs' => x :: filter (fun y => negb (py_eqb x y)) (distinct xs')
  end.

Definition playlist_names (memories : list Recalled) : list json :=
  fold_left
    (fun playlists memory =>
       match dict_get "playlist_name" (rc_metadata memory) with
       | Some v => playlists ++ [v]
       | None => playlists
       end)
    memories [].

Definition get_user_playlists (user_id : Z) (m : Manager)
    : result (list json) :=
  let playlists := playlist_names (recall_episodic user_id (Some "playlist") m) in
  if forallb hashable playlists then Ok (distinct playlists)
  else Raise TypeError.

(** The dictionary returned by [get_contextual_memory]. *)
Record ContextualMemory : Type := mkContextualMemory {
  semantic_matches : list Hit;
  graph_context : GraphContext;
  recent_actions : list Recalled;
  summary : string
}.

Section Fusion.
Context {W : World}.

Definition get_contextual_memory (user_id : Z) (query : string) (m : Manager)
    : result ContextualMemory :=
  match semantic_search user_id query 5 m with
  | Raise e => Raise e
  | Ok semantic_results =>
      let graph_context := get_graph_context user_id query m in
      let recent_actions := slice_to 5 (recall_episodic user_id None m) in
      Ok (mkContextualMemory semantic_results graph_context recent_actions
            ("Found " ++ str_int (Z.of_nat (List.length semantic_results))
             ++ " semantic matches, "
             ++ str_int (Z.of_nat (List.length (related_notes graph_context)))
             ++ " related notes")%string)
  end.

End Fusion.

(** The text has neither of the two [LIKE] wildcards in it. *)
Definition wildcard_free (a : string) : Prop :=
  forall c, In c (list_ascii_of_string a) -> c <> "%"%char /\ c <> "_"%char.

(** The text has no NUL byte in it. *)
Definition nul_free (a : string) : Prop :=
  forall c, In c (list_ascii_of_string a) -> c <> Ascii.zero.


(** The dictionary that the recall methods build from a row. *)
Definition recalled_of (row : EntryRow) : Recalled :=
  mkRecalled (row_content row) (row_metadata row) (row_timestamp row).

(** Four actions of user 1 and one of user 2, stored in this order. *)
Definition recorded_actions : Manager :=
  Eval vm_compute in
    exec (store_episodic (W := Demo.world) 1 "search_videos"
                         [("youtube_link", JStr "yt/1")] ;;;
          store_episodic (W := Demo.world) 1 "Watch YouTube"
                         [("youtube_link", JStr "yt/2")] ;;;
          store_episodic (W := Demo.world) 1 "create_playlist"
                         [("playlist_name", JStr "p1")] ;;;
          store_episodic (W := Demo.world) 1 "add_to_playlist"
                         [("playlist_name", JStr "p1")] ;;;
          store_episodic (W := Demo.world) 2 "create_playlist"
                         [("playlist_name", JStr "p2")]) init.

(** The memory entries are as before. *)
Definition keeps_entries (m m' : Manager) : Prop :=
  memory_entries m' = memory_entries m.

(** The rows of table [memory_entries] that belong to user [u]. *)
Definition user_rows (u : Z) (m : Manager) : list EntryRow :=
  filter (fun r => row_user_id r =? u) (memory_entries m).

Definition keeps_user_rows (u : Z) (m m' : Manager) : Prop :=
  user_rows u m' = user_rows u m.

(** The relationship of the last row of table [knowledge_graph] that goes
    from [a] to [b] for user [u], if there is one. *)
Definition latest_label (u : Z) (a b : string) (table : list EdgeRow)
    : option string :=
  fold_left
    (fun found r =>
       if ((edge_user_id r =? u) && String.eqb (source_node r) a
           && String.eqb (target_node r) b)%bool
       then Some (edge_relationship r) else found)
    table None.

(** The graph shows, for every ordered pair of a user's labels, the
    relationship recorded last in the table. *)
Definition mirror_latest (m : Manager) : Prop :=
  forall u a b,
    option_map DiGraph.relationship
      (DiGraph.get_edge_data (user_node u a) (user_node u b) (knowledge_graph m))
    = latest_label u a b (knowledge_graph_table m).

(** Between [m] and [m'] the edge table only got rows appended and the
    graph lost no node and no edge. *)
Definition graph_only_grows (m m' : Manager) : Prop :=
  (exists rows,
      knowledge_graph_table m' = knowledge_graph_table m ++ rows) /\
  (forall n, DiGraph.has_node n (knowledge_graph m) = true ->
             DiGraph.has_node n (knowledge_graph m') = true) /\
  (forall n v, In v (DiGraph.neighbors n (knowledge_graph m)) ->
               In v (DiGraph.neighbors n (knowledge_graph m'))).

(** Between [m] and [m'] the entry table only got rows appended. *)
Definition entries_only_grow (m m' : Manager) : Prop :=
  exists rows, memory_entries m' = memory_entries m ++ rows.

Definition is_cleanup (c : Call) : bool :=
  match c with
  | CleanupOldMemories _ _ => true
  | _ => false
  end.

(** * Properties *)

(** ** Node keys: [f"{user_id}:{label}"] determines both of its parts *)

Lemma colon_free_uint (d : uint) : colon_free (NilEmpty.string_of_uint d).
Proof.
  induction d; intros c Hc; simpl in Hc;
    try (destruct Hc as [<- | Hc]; [discriminate | now apply IHd]).
  contradiction.
Qed.

Lemma colon_free_str_int (n : Z) : colon_free (str_int n).
Proof.
  unfold str_int, NilEmpty.string_of_int.
  destruct (Z.to_int n) as [d | d].
  - apply colon_free_uint.
  - intros c [<- | Hc]; [discriminate | now apply colon_free_uint in Hc].
Qed.

Lemma str_int_inj (m n : Z) : str_int m = str_int n -> m = n.
Proof.
  unfold str_int; intros H.
  apply DecimalZ.to_int_inj.
  assert (E : Some (Z.to_int m) = Some (Z.to_int n)).
  { rewrite <- (NilEmpty.isi (Z.to_int m)), <- (NilEmpty.isi (Z.to_int n)).
    now rewrite H. }
  now inversion E.
Qed.

Lemma after_colon_app (p l : string) :
  colon_free p -> after_colon (p ++ ":" ++ l)%string = Some l.
Proof.
  induction p as [| c p IH]; intros Hp; simpl.
  - reflexivity.
  - destruct (Ascii.eqb_spec c ":") as [-> | _].
    + exfalso. apply (Hp ":"%char); simpl; auto.
    + apply IH. intros d Hd. apply Hp. simpl; auto.
Qed.

Lemma before_colon_app (p l : string) :
  colon_free p -> before_colon (p ++ ":" ++ l)%string = p.
Proof.
  induction p as [| c p IH]; intros Hp; simpl.
  - reflexivity.
  - destruct (Ascii.eqb_spec c ":") as [-> | _].
    + exfalso. apply (Hp ":"%char); simpl; auto.
    + f_equal. apply IH. intros d Hd. apply Hp. simpl; auto.
Qed.

Lemma clean_neighbor_user_node (u : Z) (label : string) :
  clean_neighbor (user_node u label) = label.
Proof.
  unfold clean_neighbor, user_node.
  now rewrite after_colon_app by apply colon_free_str_int.
Qed.

Lemma node_user_of_user_node (u : Z) (label : string) :
  before_colon (user_node u label) = str_int u.
Proof. apply before_colon_app, colon_free_str_int. Qed.

Lemma user_node_inj (u u' : Z) (a a' : string) :
  user_node u a = user_node u' a' -> u = u' /\ a = a'.
Proof.
  intros H. split.
  - apply str_int_inj.
    now rewrite <- (node_user_of_user_node u a), H, node_user_of_user_node.
  - now rewrite <- (clean_neighbor_user_node u a), H, clean_neighbor_user_node.
Qed.

Lemma user_node_other_user (u u' : Z) (a a' : string) :
  u <> u' -> String.eqb (user_node u a) (user_node u' a') = false.
Proof.
  intros Hu. apply String.eqb_neq. intros H.
  now apply user_node_inj in H.
Qed.

(** ** Stepping through the methods *)

Ltac run :=
  unfold exec, store_conversation, store_episodic, store_semantic,
    link_concepts, create_learning_path_graph, cleanup_old_memories,
    _add_to_graph, _store_entry, as_str, bind, ret, raise, now,
    insert_memory_entry, insert_knowledge_graph, update_graph in *;
  simpl in *.

Section MethodFacts.
Context {W : World}.

Lemma _add_to_graph_run (u : Z) (s t r : string) (w : Q) (m : Manager) :
  _add_to_graph u s t r w m =
  (Ok tt,
   mkManager (memory_entries m)
     (knowledge_graph_table m
        ++ [mkEdgeRow u s t r w (clock (clock_reads m))])
     (DiGraph.add_edge (user_node u s) (user_node u t) (mkEdgeData r w)
                       (knowledge_graph m))
     (S (clock_reads m))).
Proof. reflexivity. Qed.

Lemma _store_entry_ok (entry : MemoryEntry) (e : Vec) (m : Manager) :
  encode (content entry) = Some e ->
  _store_entry entry m =
  (Ok tt,
   mkManager
     (memory_entries m
        ++ [mkEntryRow (user_id entry) (content entry) (memory_type entry)
                       (metadata entry) (timestamp entry) e])
     (knowledge_graph_table m) (knowledge_graph m) (clock_reads m)).
Proof. unfold _store_entry. now intros ->. Qed.

Lemma _store_entry_fails (entry : MemoryEntry) (m : Manager) :
  encode (content entry) = None ->
  _store_entry entry m = (Raise EmbeddingError, m).
Proof. unfold _store_entry. now intros ->. Qed.

End MethodFacts.

(** ** Relations kept by every step of a method

    [R m m'] relates the state before a method to the state after it.  A
    reflexive and transitive [R] that each primitive step respects is
    respected by sequencing and by loops. *)

Section Respects.
Variable R : Manager -> Manager -> Prop.
Hypothesis R_refl : forall m, R m m.
Hypothesis R_trans : forall a b c, R a b -> R b c -> R a c.

Lemma respects_ret {A : Type} (a : A) : respects R (ret a).
Proof. intros m. apply R_refl. Qed.

Lemma respects_raise {A : Type} (e : exn) : respects R (@raise A e).
Proof. intros m. apply R_refl. Qed.

Lemma respects_bind {A B : Type} (c : M A) (k : A -> M B) :
  respects R c -> (forall a, respects R (k a)) -> respects R (bind c k).
Proof.
  intros Hc Hk m. unfold bind.
  specialize (Hc m). destruct (c m) as [[a | e] m1]; simpl in *.
  - eapply R_trans; [exact Hc | apply Hk].
  - exact Hc.
Qed.

Lemma respects_for_each {A : Type} (xs : list A) (body : A -> M unit) :
  (forall x, In x xs -> respects R (body x)) -> respects R (for_each xs body).
Proof.
  induction xs as [| x xs IH]; intros H; simpl.
  - apply respects_ret.
  - apply respects_bind.
    + apply H; simpl; auto.
    + intros _. apply IH. intros y Hy. apply H; simpl; auto.
Qed.

End Respects.

(** The primitive steps, told apart by their head. *)
Ltac on_step tnow tstore tadd tlink tdelete :=
  idtac;
  lazymatch goal with
  | |- respects _ now => tnow
  | |- respects _ (_store_entry _) => tstore
  | |- respects _ (_add_to_graph _ _ _ _ _) => tadd
  | |- respects _ (link_concepts _ _ _ _) => tlink
  | |- respects _ (delete_memory_entries _) => tdelete
  end.

(** Decomposing a method along its syntax into steps that [prim] settles. *)
Ltac steps_with prim :=
  repeat lazymatch goal with
    | |- respects _ (bind _ _) => apply respects_bind; [assumption | | intros ?]
    | |- respects _ (for_each _ _) =>
        apply respects_for_each; [assumption | assumption | intros ? ?]
    | |- respects _ (ret _) => apply respects_ret; assumption
    | |- respects _ (raise _) => apply respects_raise; assumption
    | |- respects _ (match ?x with _ => _ end) => destruct x
    | |- respects _ (let _ := _ in _) => cbv zeta
    | |- respects _ _ => solve [prim]
    end.

(** ** A failed embedding leaves nothing behind (C1) *)

Section Embedding.
Context {W : World}.

Let keeps_embedded (m m' : Manager) : Prop := embedded m -> embedded m'.

Lemma keeps_embedded_refl (m : Manager) : keeps_embedded m m.
Proof. now intros H. Qed.

Lemma keeps_embedded_trans (a b c : Manager) :
  keeps_embedded a b -> keeps_embedded b c -> keeps_embedded a c.
Proof. unfold keeps_embedded. auto. Qed.

Lemma _store_entry_embedded (entry : MemoryEntry) :
  respects keeps_embedded (_store_entry entry).
Proof.
  intros m Hm. unfold _store_entry.
  destruct (encode (content entry)) as [e |] eqn:He; simpl; [| exact Hm].
  unfold embedded in *; simpl. apply Forall_app. split; [exact Hm |].
  constructor; [exact He | constructor].
Qed.

Lemma _add_to_graph_embedded (u : Z) (s t r : string) (w : Q) :
  respects keeps_embedded (_add_to_graph u s t r w).
Proof. intros m Hm. exact Hm. Qed.

Lemma now_embedded : respects keeps_embedded now.
Proof. intros m Hm. exact Hm. Qed.

Lemma link_concepts_embedded (u : Z) (a b r : string) :
  respects keeps_embedded (link_concepts u a b r).
Proof.
  pose proof keeps_embedded_refl. pose proof keeps_embedded_trans.
  unfold link_concepts.
  steps_with ltac:(on_step fail fail ltac:(apply _add_to_graph_embedded)
                           fail fail).
Qed.

Lemma run_call_embedded (c : Call) : respects keeps_embedded (run_call c).
Proof.
  pose proof keeps_embedded_refl as Hr. pose proof keeps_embedded_trans as Ht.
  destruct c; cbn [run_call];
    unfold store_conversation, store_episodic, store_semantic,
      create_learning_path_graph, cleanup_old_memories, as_str;
    steps_with ltac:(on_step ltac:(apply now_embedded)
                             ltac:(apply _store_entry_embedded)
                             ltac:(apply _add_to_graph_embedded)
                             ltac:(apply link_concepts_embedded)
                             fail).
  intros m Hm. unfold embedded in *; simpl.
  apply Forall_forall. intros r Hr'. apply filter_In in Hr' as [Hr' _].
  now apply (proj1 (Forall_forall _ _) Hm).
Qed.

(** C1.  When the embedding model fails on the content of the entry, each
    of [store_conversation], [store_episodic] and [store_semantic] raises
    and leaves both tables and the graph as they were.  Moreover no call
    ever breaks the invariant that every stored row carries the embedding of
    its content. *)
Theorem store_aborts_without_embedding (m : Manager) :
  (forall u msg reply tools,
      encode ("User: " ++ msg ++ newline ++ "AI: " ++ reply)%string = None ->
      aborted (store_conversation u msg reply tools) m) /\
  (forall u action res,
      encode ("Action: " ++ action)%string = None ->
      aborted (store_episodic u action res) m) /\
  (forall u concept related,
      encode concept = None ->
      aborted (store_semantic u concept related) m) /\
  (forall call, embedded m -> embedded (exec (run_call call) m)).
Proof.
  unfold aborted, same_stores.
  repeat split; run; try (rewrite H; simpl; reflexivity).
  intros call Hm. now apply (run_call_embedded call m).
Qed.

End Embedding.

(** C1 at work: with the model out of service nothing is stored. *)
Lemma store_aborts_without_embedding_witness :
  aborted (store_conversation (W := Demo.offline) 1 "hi" "hello" None) init /\
  aborted (store_episodic (W := Demo.offline) 1 "create_playlist"
                          [("playlist_name", JStr "p")]) init /\
  aborted (store_semantic (W := Demo.offline) 1 "recursion" ["loops"]) init.
Proof.
  destruct (store_aborts_without_embedding (W := Demo.offline) init)
    as (Hc & He & Hs & _).
  repeat split; first [apply Hc | apply He | apply Hs]; reflexivity.
Defined.

(** ** Stable descending sort *)

Section OrderingFacts.
Context {A : Type}.
Variable above : A -> A -> bool.

(** [ahead a b]: [a] may stand before [b]. *)
Let ahead (a b : A) : Prop := above b a = false.

Lemma insert_desc_perm (x : A) (l : list A) :
  Permutation (insert_desc above x l) (x :: l).
Proof.
  induction l as [| y l IH]; simpl.
  - reflexivity.
  - destruct (above y x).
    + rewrite IH. apply perm_swap.
    + reflexivity.
Qed.

Lemma sort_desc_perm (l : list A) : Permutation (sort_desc above l) l.
Proof.
  induction l as [| x l IH]; simpl.
  - reflexivity.
  - rewrite insert_desc_perm. now constructor.
Qed.

Hypothesis above_asym : forall a b, above a b = true -> above b a = false.
Hypothesis ahead_trans : forall a b c, ahead a b -> ahead b c -> ahead a c.

Lemma insert_desc_sorted (x : A) (l : list A) :
  StronglySorted ahead l -> StronglySorted ahead (insert_desc above x l).
Proof.
  induction l as [| y l IH]; intros Hl; simpl.
  - repeat constructor.
  - inversion Hl as [| ? ? Hl' Hy]; subst.
    destruct (above y x) eqn:Hyx.
    + constructor; [now apply IH |].
      eapply Permutation_Forall; [symmetry; apply insert_desc_perm |].
      constructor; [now apply above_asym | exact Hy].
    + constructor; [exact Hl |].
      constructor; [exact Hyx |].
      eapply Forall_impl; [| exact Hy].
      intros z Hz. now apply (ahead_trans x y z).
Qed.

Lemma sort_desc_sorted (l : list A) : StronglySorted ahead (sort_desc above l).
Proof.
  induction l as [| x l IH]; simpl.
  - constructor.
  - now apply insert_desc_sorted.
Qed.

End OrderingFacts.

Lemma StronglySorted_firstn {A : Type} (R : A -> A -> Prop) (n : nat)
    (l : list A) :
  StronglySorted R l -> StronglySorted R (firstn n l).
Proof.
  revert l. induction n as [| n IH]; intros l Hl; simpl.
  - constructor.
  - destruct l as [| x l]; [constructor |].
    inversion Hl as [| ? ? Hl' Hx]; subst.
    constructor; [now apply IH |].
    apply Forall_forall. intros y Hy.
    apply (proj1 (Forall_forall _ _) Hx).
    revert Hy. clear. revert n.
    induction l as [| z l IHl]; intros [| n] Hy; simpl in *; try contradiction.
    destruct Hy as [-> | Hy]; eauto.
Qed.

Lemma StronglySorted_map {A B : Type} (R : A -> A -> Prop)
    (S : B -> B -> Prop) (f : A -> B) (l : list A) :
  (forall a b, R a b -> S (f a) (f b)) ->
  StronglySorted R l -> StronglySorted S (map f l).
Proof.
  intros HRS. induction 1 as [| x l Hl IH Hx]; simpl; constructor.
  - exact IH.
  - apply Forall_map. eapply Forall_impl; [| exact Hx]. intros; now apply HRS.
Qed.

Lemma StronglySorted_weaken {A : Type} (R S : A -> A -> Prop) (l : list A) :
  (forall a b, R a b -> S a b) -> StronglySorted R l -> StronglySorted S l.
Proof.
  intros HRS. induction 1 as [| x l Hl IH Hx]; constructor.
  - exact IH.
  - eapply Forall_impl; [| exact Hx]. intros; now apply HRS.
Qed.

Lemma fold_left_snoc_map {A B : Type} (f : A -> B) (l : list A) (acc : list B) :
  fold_left (fun results x => results ++ [f x]) l acc = acc ++ map f l.
Proof.
  revert acc. induction l as [| x l IH]; intros acc; simpl.
  - now rewrite app_nil_r.
  - rewrite IH, <- app_assoc. reflexivity.
Qed.

Lemma filter_none {A : Type} (f : A -> bool) (l : list A) :
  Forall (fun x => f x = false) l -> filter f l = [].
Proof.
  induction 1 as [| x l Hx _ IH]; simpl; [reflexivity |].
  now rewrite Hx.
Qed.

Lemma filter_absorb {A : Type} (f g : A -> bool) (l : list A) :
  (forall x, g x = true -> f x = true) -> filter f (filter g l) = filter g l.
Proof.
  intros H. induction l as [| x l IH]; simpl; [reflexivity |].
  destruct (g x) eqn:Hg; simpl; [| exact IH].
  now rewrite (H x Hg), IH.
Qed.

(** ** Conversation recall (C8) *)

Lemma recall_conversation_map (u limit : Z) (m : Manager) :
  recall_conversation u limit m =
  map (fun row => mkRecalled (row_content row) (row_metadata row)
                             (row_timestamp row))
      (sql_limit limit
         (sort_desc later_row (filter (conversation_of u) (memory_entries m)))).
Proof. unfold recall_conversation. now rewrite fold_left_snoc_map. Qed.

Lemma recall_conversation_newest_first (u limit : Z) (m : Manager) :
  newest_first (recall_conversation u limit m).
Proof.
  rewrite recall_conversation_map. unfold newest_first.
  apply StronglySorted_map
    with (R := fun a b : EntryRow => later_row b a = false).
  - unfold later_row. intros a b H. apply Z.ltb_ge in H. exact H.
  - assert (Hs : StronglySorted (fun a b : EntryRow => later_row b a = false)
                   (sort_desc later_row
                      (filter (conversation_of u) (memory_entries m)))).
    { apply sort_desc_sorted; unfold later_row.
      - intros a b H. apply Z.ltb_lt in H. apply Z.ltb_ge. lia.
      - intros a b c H1 H2. apply Z.ltb_ge in H1, H2. apply Z.ltb_ge. lia. }
    unfold sql_limit. destruct (limit <? 0); [exact Hs |].
    now apply StronglySorted_firstn.
Qed.

Section RoundTrip.
Context {W : World}.

(** C8.  After [store_conversation] succeeds, [recall_conversation] with a
    limit no smaller than the number of the user's conversation entries
    returns the stored content, metadata and timestamp, and what it returns
    is ordered newest first. *)
Theorem conversation_round_trip (u : Z) (msg reply : string)
    (tools : option (list string)) (e : Vec) (limit : Z) (m : Manager) :
  let text := ("User: " ++ msg ++ newline ++ "AI: " ++ reply)%string in
  let m' := exec (store_conversation u msg reply tools) m in
  encode text = Some e ->
  Z.of_nat (List.length (filter (conversation_of u) (memory_entries m')))
    <= limit ->
  In (mkRecalled text
        [("user_message", JStr msg); ("ai_response", JStr reply);
         ("tools_used",
          JArr (map JStr (match tools with Some l => l | None => [] end)))]
        (clock (clock_reads m)))
     (recall_conversation u limit m')
  /\ newest_first (recall_conversation u limit m').
Proof.
  intros text m' He Hlimit.
  split; [| apply recall_conversation_newest_first].
  rewrite recall_conversation_map.
  set (row := mkEntryRow u text conversation
                [("user_message", JStr msg); ("ai_response", JStr reply);
                 ("tools_used",
                  JArr (map JStr (match tools with Some l => l | None => [] end)))]
                (clock (clock_reads m)) e).
  assert (Hrow : In row (filter (conversation_of u) (memory_entries m'))).
  { apply filter_In. split.
    - subst m'. unfold exec, store_conversation, bind, now. simpl.
      erewrite _store_entry_ok by exact He. simpl.
      apply in_or_app. right. left.
      subst row. f_equal. do 3 f_equal. now destruct tools as [[| t ts] |].
    - unfold conversation_of. simpl. now rewrite Z.eqb_refl. }
  apply in_map_iff. exists row. split; [reflexivity |].
  unfold sql_limit. destruct (limit <? 0) eqn:Hneg.
  - eapply Permutation_in; [symmetry; apply sort_desc_perm | exact Hrow].
  - rewrite firstn_all2.
    + eapply Permutation_in; [symmetry; apply sort_desc_perm | exact Hrow].
    + rewrite (Permutation_length (sort_desc_perm later_row _)). lia.
Qed.

End RoundTrip.

(** C8 on one exchange stored in the empty manager. *)
Lemma conversation_round_trip_witness :
  In (mkRecalled ("User: hi" ++ newline ++ "AI: hello")%string
        [("user_message", JStr "hi"); ("ai_response", JStr "hello");
         ("tools_used", JArr [JStr "search_videos"])]
        1700000000000000)
     (recall_conversation 7 10
        (exec (store_conversation (W := Demo.world) 7 "hi" "hello"
                                  (Some ["search_videos"])) init))
  /\ newest_first
       (recall_conversation 7 10
          (exec (store_conversation (W := Demo.world) 7 "hi" "hello"
                                    (Some ["search_videos"])) init)).
Proof.
  apply (conversation_round_trip (W := Demo.world) 7 "hi" "hello"
           (Some ["search_videos"]) [1; 0]%Q 10 init).
  - reflexivity.
  - vm_compute. discriminate.
Defined.

(** ** Retention sweep (C3) *)

Lemma MemoryType_eqb_eq (a b : MemoryType) : MemoryType_eqb a b = true <-> a = b.
Proof. destruct a, b; simpl; split; congruence. Qed.

Section Retention.
Context {W : World}.

Lemma cleanup_old_memories_unfold (u days : Z) (m : Manager) :
  cleanup_old_memories u days m =
  let ticked := mkManager (memory_entries m) (knowledge_graph_table m)
                          (knowledge_graph m) (S (clock_reads m)) in
  match timedelta_days days with
  | None => (Raise OverflowError, ticked)
  | Some delta =>
      match datetime_sub (clock (clock_reads m)) delta with
      | None => (Raise OverflowError, ticked)
      | Some cutoff =>
          (Ok tt,
           mkManager (filter (swept u cutoff) (memory_entries m))
                     (knowledge_graph_table m) (knowledge_graph m)
                     (S (clock_reads m)))
      end
  end.
Proof.
  unfold cleanup_old_memories, bind, now. cbv zeta.
  destruct (timedelta_days days) as [delta |]; [| reflexivity].
  destruct (datetime_sub (clock (clock_reads m)) delta); reflexivity.
Qed.

Lemma representable_cutoff_dec (t days : Z) :
  {representable_cutoff t days} + {~ representable_cutoff t days}.
Proof.
  unfold representable_cutoff.
  destruct (Z_le_dec (Z.abs days) 999999999);
    [| right; intros [? _]; contradiction].
  destruct (Z_le_dec datetime_min (t - days * microseconds_per_day));
    [| right; intros [_ [? _]]; contradiction].
  destruct (Z_le_dec (t - days * microseconds_per_day) datetime_max);
    [left; auto | right; intros [_ [_ ?]]; contradiction].
Qed.

Lemma cleanup_old_memories_run (u days : Z) (m : Manager) :
  representable_cutoff (clock (clock_reads m)) days ->
  cleanup_old_memories u days m =
  (Ok tt,
   mkManager
     (filter (swept u (clock (clock_reads m) - days * microseconds_per_day))
             (memory_entries m))
     (knowledge_graph_table m) (knowledge_graph m) (S (clock_reads m))).
Proof.
  intros [Hdays [Hlo Hhi]]. rewrite cleanup_old_memories_unfold.
  unfold timedelta_days, datetime_sub. cbv zeta.
  apply Z.leb_le in Hdays, Hlo, Hhi. now rewrite Hdays, Hlo, Hhi.
Qed.

Lemma cleanup_old_memories_overflow (u days : Z) (m : Manager) :
  ~ representable_cutoff (clock (clock_reads m)) days ->
  cleanup_old_memories u days m =
  (Raise OverflowError,
   mkManager (memory_entries m) (knowledge_graph_table m) (knowledge_graph m)
             (S (clock_reads m))).
Proof.
  intros Hout. rewrite cleanup_old_memories_unfold.
  unfold timedelta_days, datetime_sub. cbv zeta.
  destruct (Z.abs days <=? 999999999) eqn:Hdays; [| reflexivity].
  destruct (datetime_min <=? clock (clock_reads m) - days * microseconds_per_day)
    eqn:Hlo; [| reflexivity].
  destruct (clock (clock_reads m) - days * microseconds_per_day <=? datetime_max)
    eqn:Hhi; [| reflexivity].
  exfalso. apply Hout. apply Z.leb_le in Hdays, Hlo, Hhi.
  unfold representable_cutoff. auto.
Qed.

Lemma swept_spec (u cutoff : Z) (r : EntryRow) :
  swept u cutoff r = true <-> ~ expired u cutoff r.
Proof.
  unfold swept, expired. rewrite negb_true_iff, !andb_false_iff.
  rewrite Z.eqb_neq, Z.ltb_ge. split.
  - intros [[H | H] | H] (Hu & Ht & Hc); try lia.
    rewrite Ht in H. discriminate.
  - intros H.
    destruct (Z.eq_dec (row_user_id r) u) as [Hu |]; [| auto].
    destruct (Z_lt_ge_dec (row_timestamp r) cutoff) as [Hc |]; [| left; right; lia].
    right. destruct (row_memory_type r) eqn:Hty; try reflexivity.
    exfalso. apply H. auto.
Qed.

Lemma swept_keeps_other_kinds (u cutoff : Z) (l : list EntryRow) :
  filter (fun r => negb (MemoryType_eqb (row_memory_type r) conversation))
         (filter (swept u cutoff) l) =
  filter (fun r => negb (MemoryType_eqb (row_memory_type r) conversation)) l.
Proof.
  induction l as [| r l IH]; simpl; [reflexivity |].
  destruct (swept u cutoff r) eqn:Hs; simpl.
  - now rewrite IH.
  - rewrite IH. unfold swept in Hs. apply negb_false_iff in Hs.
    apply andb_true_iff in Hs as [_ Hty]. now rewrite Hty.
Qed.

(** C3.  When the cutoff [now - days] is a [datetime], the sweep returns and
    removes exactly the user's conversation entries older than the cutoff,
    keeping the others in their order, and a second sweep whose cutoff is
    not later removes nothing more.  When it is not, the sweep raises
    [OverflowError] and every entry stays.  Either way the entries of the
    other two kinds, the edge table and the graph are untouched. *)
Theorem cleanup_old_memories_scope (u days : Z) (m : Manager) :
  let cutoff := clock (clock_reads m) - days * microseconds_per_day in
  let m' := exec (cleanup_old_memories u days) m in
  (representable_cutoff (clock (clock_reads m)) days ->
   fst (cleanup_old_memories u days m) = Ok tt /\
   (forall r, In r (memory_entries m') <->
              In r (memory_entries m) /\ ~ expired u cutoff r) /\
   (exists gone,
       Permutation (memory_entries m) (memory_entries m' ++ gone) /\
       Forall (expired u cutoff) gone) /\
   memory_entries m' = filter (swept u cutoff) (memory_entries m) /\
   (forall days',
       clock (clock_reads m') - days' * microseconds_per_day <= cutoff ->
       memory_entries (exec (cleanup_old_memories u days') m') =
       memory_entries m')) /\
  (~ representable_cutoff (clock (clock_reads m)) days ->
   fst (cleanup_old_memories u days m) = Raise OverflowError /\
   memory_entries m' = memory_entries m) /\
  filter (fun r => negb (MemoryType_eqb (row_memory_type r) conversation))
         (memory_entries m') =
  filter (fun r => negb (MemoryType_eqb (row_memory_type r) conversation))
         (memory_entries m) /\
  knowledge_graph_table m' = knowledge_graph_table m /\
  knowledge_graph m' = knowledge_graph m.
Proof.
  intros cutoff m'. subst m'. unfold exec.
  split; [| split].
  - intros Hin. rewrite (cleanup_old_memories_run u days m Hin). simpl.
    fold cutoff.
    split; [reflexivity |]. split; [| split; [| split]].
    + intros r. rewrite filter_In, swept_spec. reflexivity.
    + exists (filter (fun r => negb (swept u cutoff r)) (memory_entries m)).
      split.
      * induction (memory_entries m) as [| r l IH]; simpl; [reflexivity |].
        destruct (swept u cutoff r); simpl.
        -- now constructor.
        -- now apply Permutation_cons_app.
      * apply Forall_forall. intros r Hr. apply filter_In in Hr as [_ Hr].
        apply negb_true_iff in Hr.
        destruct (Z.eq_dec (row_user_id r) u) as [Hu | Hu];
          [| exfalso; apply (proj2 (not_true_iff_false _) Hr), swept_spec;
             intros (? & _); contradiction].
        unfold swept in Hr. apply negb_false_iff in Hr.
        apply andb_true_iff in Hr as [Hr Hty].
        apply andb_true_iff in Hr as [_ Hts].
        repeat split;
          [exact Hu | now apply MemoryType_eqb_eq | now apply Z.ltb_lt].
    + reflexivity.
    + intros days' Hle.
      match goal with
      | |- context [cleanup_old_memories u days' ?m1] =>
          destruct (representable_cutoff_dec (clock (clock_reads m1)) days')
            as [Hin' | Hout'];
          [rewrite (cleanup_old_memories_run u days' m1 Hin')
          | rewrite (cleanup_old_memories_overflow u days' m1 Hout')]
      end; simpl; [| reflexivity].
      apply filter_absorb. intros r Hr.
      apply swept_spec. apply swept_spec in Hr.
      intros (Hu & Hty & Hts). apply Hr. unfold expired. repeat split; auto.
      simpl in Hle. lia.
  - intros Hout. rewrite (cleanup_old_memories_overflow u days m Hout).
    split; reflexivity.
  - destruct (representable_cutoff_dec (clock (clock_reads m)) days)
      as [Hin | Hout];
      [rewrite (cleanup_old_memories_run u days m Hin)
      | rewrite (cleanup_old_memories_overflow u days m Hout)]; simpl.
    + split; [apply swept_keeps_other_kinds | split; reflexivity].
    + repeat split.
Qed.

End Retention.

(** C3 at work on a store holding one conversation entry and one episodic
    entry, both forty days old: a sweep at thirty days keeps only the
    episodic one, and sweeping again changes nothing. *)
Lemma cleanup_old_memories_scope_witness :
  let old := 1700000000000000 - 40 * microseconds_per_day in
  let talk := mkEntryRow 1 "User: a" conversation [] old [1; 0]%Q in
  let act := mkEntryRow 1 "Action: get_notes" episodic [] old [1; 0]%Q in
  let m := mkManager [talk; act] [] DiGraph.empty 0 in
  let m' := exec (cleanup_old_memories (W := Demo.frozen) 1 30) m in
  representable_cutoff (clock (World := Demo.frozen) (clock_reads m)) 30 /\
  memory_entries m' = [act] /\
  memory_entries (exec (cleanup_old_memories (W := Demo.frozen) 1 30) m')
  = memory_entries m'.
Proof.
  intros old talk act m m'.
  assert (Hin : representable_cutoff
                  (clock (World := Demo.frozen) (clock_reads m)) 30).
  { vm_compute. repeat split; discriminate. }
  destruct (cleanup_old_memories_scope (W := Demo.frozen) 1 30 m)
    as (Hrun & _).
  destruct (Hrun Hin) as (_ & _ & _ & _ & Hagain).
  split; [exact Hin |]. split; [reflexivity |].
  apply Hagain. vm_compute. discriminate.
Defined.

(** The retention rule fails where the cutoff is no [datetime]: with one
    conversation entry stored now and [days = -3000000] the cutoff falls
    after year 9999, the entry is older than it, and the sweep raises
    [OverflowError] and leaves the entry in place. *)
Lemma sweep_stops_at_unrepresentable_cutoff :
  let talk := mkEntryRow 1 "User: a" conversation [] 1700000000000000
                         [1; 0]%Q in
  let m := mkManager [talk] [] DiGraph.empty 0 in
  ~ sweep_as_specified (W := Demo.frozen) 1 (-3000000) m /\
  fst (cleanup_old_memories (W := Demo.frozen) 1 (-3000000) m)
  = Raise OverflowError /\
  memory_entries (exec (cleanup_old_memories (W := Demo.frozen) 1 (-3000000)) m)
  = [talk].
Proof.
  intros talk m. split; [| split; reflexivity].
  intros H. destruct (H talk) as [Hkeep _].
  destruct Hkeep as [_ Hfresh]; [left; reflexivity |].
  apply Hfresh. unfold expired. simpl. repeat split.
Qed.


(** ** Similarity search (C2) *)

Lemma gt_half_spec (s : Q) : gt_half s = true <-> (1 # 2 < s)%Q.
Proof.
  unfold gt_half. rewrite negb_true_iff, <- not_true_iff_false, Qle_bool_iff.
  split; [apply Qnot_le_lt | apply Qlt_not_le].
Qed.

Lemma more_similar_asym (a b : Hit) :
  more_similar a b = true -> more_similar b a = false.
Proof.
  unfold more_similar. rewrite negb_true_iff, negb_false_iff, Qle_bool_iff.
  intros H. apply not_true_iff_false in H. rewrite Qle_bool_iff in H.
  apply Qlt_le_weak. now apply Qnot_le_lt.
Qed.

Lemma more_similar_ahead (a b : Hit) :
  more_similar b a = false <-> (hit_similarity b <= hit_similarity a)%Q.
Proof. unfold more_similar. now rewrite negb_false_iff, Qle_bool_iff. Qed.

Section SearchFacts.
Context {W : World}.

Lemma score_row_hit_of (qe : Vec) (results : list Hit) (r : EntryRow) :
  score_row qe results r = results ++ hit_of qe r.
Proof.
  unfold score_row, hit_of.
  destruct (similarity qe (row_embedding r)) as [s |]; [| now rewrite app_nil_r].
  destruct (gt_half s) eqn:Hs, (Qlt_le_dec (1 # 2) s) as [Hlt | Hle];
    try reflexivity; try now rewrite app_nil_r.
  - apply gt_half_spec in Hs. exfalso. now apply (Qlt_not_le _ _ Hs).
  - apply gt_half_spec in Hlt. congruence.
Qed.

Lemma fold_score_row (qe : Vec) (rows : list EntryRow) (acc : list Hit) :
  fold_left (score_row qe) rows acc = acc ++ flat_map (hit_of qe) rows.
Proof.
  revert acc. induction rows as [| r rows IH]; intros acc; simpl.
  - now rewrite app_nil_r.
  - now rewrite IH, score_row_hit_of, app_assoc.
Qed.

Lemma semantic_search_run (u : Z) (q : string) (k : Z) (m : Manager) (qe : Vec) :
  encode q = Some qe ->
  semantic_search u q k m =
  Ok (slice_to k (sort_desc more_similar (matches qe u m))).
Proof.
  intros He. unfold semantic_search, matches. rewrite He.
  now rewrite fold_score_row.
Qed.

Lemma matches_above_half (qe : Vec) (u : Z) (m : Manager) :
  Forall (fun h => (1 # 2 < hit_similarity h)%Q) (matches qe u m).
Proof.
  apply Forall_forall. intros h Hh. unfold matches in Hh.
  apply in_flat_map in Hh as (r & _ & Hh). unfold hit_of in Hh.
  destruct (similarity qe (row_embedding r)) as [s |]; [| contradiction].
  destruct (Qlt_le_dec (1 # 2) s) as [Hlt |]; [| contradiction].
  destruct Hh as [<- | []]. exact Hlt.
Qed.

Lemma slice_to_incl {A : Type} (k : Z) (l : list A) : incl (slice_to k l) l.
Proof.
  unfold slice_to. intros x Hx.
  destruct (0 <=? k).
  - rewrite <- (firstn_skipn (Z.to_nat k) l). apply in_or_app. now left.
  - rewrite <- (firstn_skipn (Z.to_nat (Z.of_nat (List.length l) + k)) l).
    apply in_or_app. now left.
Qed.

(** C2, amended.  For a limit [k >= 0], [semantic_search] returns the first
    [k] of the user's entries whose similarity to the query exceeds one
    half, ranked by similarity, highest first.  For every limit, negative
    ones included, the result is a list, possibly empty, and every hit in
    it has similarity above one half. *)
Theorem semantic_search_ranked (u : Z) (q : string) (k : Z) (m : Manager) :
  (0 <= k -> search_contract u q k m) /\
  (forall qe, encode q = Some qe ->
     exists hits, semantic_search u q k m = Ok hits /\
                  Forall (fun h => (1 # 2 < hit_similarity h)%Q) hits).
Proof.
  split.
  - intros Hk qe He. exists (sort_desc more_similar (matches qe u m)).
    split; [apply sort_desc_perm |]. split.
    + unfold by_similarity.
      apply StronglySorted_weaken
        with (R := fun a b => more_similar b a = false).
      * intros a b. apply more_similar_ahead.
      * apply sort_desc_sorted; [apply more_similar_asym |].
        intros a b c. rewrite !more_similar_ahead. intros H1 H2.
        now apply Qle_trans with (hit_similarity b).
    + rewrite (semantic_search_run u q k m qe He). unfold slice_to.
      now rewrite (proj2 (Z.leb_le 0 k) Hk).
  - intros qe He. rewrite (semantic_search_run u q k m qe He).
    eexists. split; [reflexivity |].
    apply Forall_forall. intros h Hh. apply slice_to_incl in Hh.
    apply (Permutation_in _ (sort_desc_perm more_similar _)) in Hh.
    now apply (proj1 (Forall_forall _ _) (matches_above_half qe u m)).
Qed.

End SearchFacts.

(** C2 on the three stored entries with limit two. *)
Lemma semantic_search_ranked_witness :
  0 <= 2 /\ search_contract (W := Demo.world) 1 "loops" 2 three_entries.
Proof.
  split; [lia |].
  apply (proj1 (semantic_search_ranked (W := Demo.world) 1 "loops" 2
                  three_entries)).
  lia.
Defined.

(** What the search returns there for limits [5] and [-1]: all three entries
    pass the threshold, and [results[:-1]] drops the last of them. *)
Example semantic_search_limits :
  option_map (map hit_content)
    (match semantic_search (W := Demo.world) 1 "loops" 5 three_entries with
     | Ok hits => Some hits | Raise _ => None end)
  = Some ["loop a"; "video"; "b"] /\
  option_map (map hit_content)
    (match semantic_search (W := Demo.world) 1 "loops" (-1) three_entries with
     | Ok hits => Some hits | Raise _ => None end)
  = Some ["loop a"; "video"].
Proof. split; reflexivity. Qed.

(** C2 as stated fails for a negative limit: the first [k] of any ranking is
    empty when [k = -1], while the method returns two hits. *)
Lemma semantic_search_negative_limit :
  ~ search_contract (W := Demo.world) 1 "loops" (-1) three_entries.
Proof.
  intros H.
  destruct (H [3 # 5; 4 # 5]%Q eq_refl) as (ranked & _ & _ & E).
  vm_compute in E. discriminate E.
Qed.

(** ** Dictionaries and the graph *)

Section DictFacts.
Context {V : Type}.

Lemma dict_get_set (k k' : string) (v : V) (d : dict V) :
  dict_get k' (dict_set k v d) =
  if String.eqb k k' then Some v else dict_get k' d.
Proof.
  induction d as [| [j x] d IH]; simpl.
  - reflexivity.
  - destruct (String.eqb_spec j k) as [-> | Hjk]; simpl.
    + destruct (String.eqb k k'); reflexivity.
    + rewrite IH. destruct (String.eqb_spec j k') as [-> | Hjk'].
      * destruct (String.eqb_spec k k') as [-> | _]; [contradiction | reflexivity].
      * reflexivity.
Qed.

Lemma dict_get_snoc (k k' : string) (v : V) (d : dict V) :
  dict_get k' (d ++ [(k, v)]) =
  match dict_get k' d with
  | Some x => Some x
  | None => if String.eqb k k' then Some v else None
  end.
Proof.
  induction d as [| [j x] d IH]; simpl.
  - reflexivity.
  - destruct (String.eqb j k'); [reflexivity | exact IH].
Qed.

Lemma dict_set_keys (k : string) (v : V) (d : dict V) (x : string) :
  In x (map fst (dict_set k v d)) <-> x = k \/ In x (map fst d).
Proof.
  induction d as [| [j y] d IH]; simpl.
  - intuition.
  - destruct (String.eqb_spec j k) as [-> | Hjk]; simpl.
    + intuition.
    + rewrite IH. intuition.
Qed.

Lemma dict_set_NoDup (k : string) (v : V) (d : dict V) :
  NoDup (map fst d) -> NoDup (map fst (dict_set k v d)).
Proof.
  induction d as [| [j y] d IH]; simpl; intros Hd.
  - repeat constructor. intros [].
  - inversion Hd as [| ? ? Hj Hd']; subst.
    destruct (String.eqb_spec j k) as [-> | Hjk]; simpl.
    + now constructor.
    + constructor; [| now apply IH].
      rewrite dict_set_keys. intros [-> | H]; [now apply Hjk | now apply Hj].
Qed.

Lemma dict_get_In (k : string) (v : V) (d : dict V) :
  dict_get k d = Some v -> In (k, v) d.
Proof.
  induction d as [| [j y] d IH]; simpl; [discriminate |].
  destruct (String.eqb_spec j k) as [-> | _].
  - intros [= ->]. now left.
  - intros H. right. now apply IH.
Qed.

End DictFacts.

Module DiGraphFacts.

Lemma successors_add_node (k n : string) (g : DiGraph.t) :
  successors k (add_node n g) = successors k g.
Proof.
  unfold add_node, has_node, dict_mem, successors.
  destruct (dict_get n g) as [a |] eqn:Hn; [reflexivity |].
  rewrite dict_get_snoc.
  destruct (dict_get k g) as [b |] eqn:Hk; [reflexivity |].
  now destruct (String.eqb n k).
Qed.

Lemma successors_add_edge (k u v : string) (d : EdgeData) (g : DiGraph.t) :
  successors k (add_edge u v d g) =
  if String.eqb u k then dict_set v d (successors u g) else successors k g.
Proof.
  unfold add_edge. unfold successors at 1. rewrite dict_get_set.
  rewrite !successors_add_node.
  destruct (String.eqb u k); [reflexivity |].
  fold (successors k (add_node v (add_node u g))).
  now rewrite !successors_add_node.
Qed.

Lemma neighbors_add_edge_new (u v : string) (d : EdgeData) (g : DiGraph.t) :
  In v (neighbors u (add_edge u v d g)).
Proof.
  unfold neighbors. rewrite successors_add_edge, String.eqb_refl.
  apply dict_set_keys. now left.
Qed.

Lemma neighbors_add_edge_old (k x u v : string) (d : EdgeData) (g : DiGraph.t) :
  In x (neighbors k g) -> In x (neighbors k (add_edge u v d g)).
Proof.
  unfold neighbors. rewrite successors_add_edge.
  destruct (String.eqb_spec u k) as [-> | _]; [| trivial].
  intros H. apply dict_set_keys. now right.
Qed.

Lemma get_edge_data_add_edge (u v : string) (d : EdgeData) (g : DiGraph.t) :
  get_edge_data u v (add_edge u v d g) = Some d.
Proof.
  unfold get_edge_data.
  now rewrite successors_add_edge, String.eqb_refl, dict_get_set, String.eqb_refl.
Qed.

End DiGraphFacts.

Import DiGraphFacts.

(** ** One edge per ordered pair (C4) *)

Lemma filter_key_absent {V : Type} (k : string) (d : dict V) :
  ~ In k (map fst d) -> filter (fun p => String.eqb (fst p) k) d = [].
Proof.
  induction d as [| [j y] d IH]; simpl; intros H; [reflexivity |].
  destruct (String.eqb_spec j k) as [-> | _].
  - exfalso. apply H. now left.
  - apply IH. intros Hk. apply H. now right.
Qed.

Lemma filter_key_dict_set {V : Type} (k : string) (v : V) (d : dict V) :
  NoDup (map fst d) ->
  filter (fun p => String.eqb (fst p) k) (dict_set k v d) = [(k, v)].
Proof.
  induction d as [| [j y] d IH]; simpl; intros Hd.
  - now rewrite String.eqb_refl.
  - inversion Hd as [| ? ? Hj Hd']; subst.
    destruct (String.eqb_spec j k) as [-> | Hjk]; simpl.
    + rewrite String.eqb_refl. f_equal. now apply filter_key_absent.
    + destruct (String.eqb_spec j k) as [-> | _]; [contradiction |].
      now apply IH.
Qed.

Lemma simple_graph_add_edge (u v : string) (d : EdgeData) (g : DiGraph.t) :
  simple_graph g -> simple_graph (add_edge u v d g).
Proof.
  intros Hg n. unfold neighbors. rewrite successors_add_edge.
  destruct (String.eqb u n); [| apply Hg].
  apply dict_set_NoDup. apply Hg.
Qed.

Lemma simple_graph_empty : simple_graph DiGraph.empty.
Proof. intros n. constructor. Qed.

Section OneEdge.
Context {W : World}.

(** C4, amended.  Two insertions between the same ordered pair append two
    rows to the table, so both labels are stored there; the graph keeps a
    single edge for the pair and its relationship is the label inserted
    last. *)
Theorem second_label_replaces_first (u : Z) (a b r1 r2 : string) (m : Manager) :
  simple_graph (knowledge_graph m) ->
  let m' := exec (_add_to_graph u a b r1 default_weight ;;;
                  _add_to_graph u a b r2 default_weight) m in
  knowledge_graph_table m' =
    knowledge_graph_table m
      ++ [mkEdgeRow u a b r1 default_weight (clock (clock_reads m));
          mkEdgeRow u a b r2 default_weight (clock (S (clock_reads m)))] /\
  In r1 (stored_labels u a b m') /\ In r2 (stored_labels u a b m') /\
  edge_labels u a b m' = [r2] /\
  get_edge_data (user_node u a) (user_node u b) (knowledge_graph m') =
    Some (mkEdgeData r2 default_weight) /\
  simple_graph (knowledge_graph m').
Proof.
  intros Hg m'. subst m'. unfold exec, bind.
  rewrite _add_to_graph_run. rewrite _add_to_graph_run. simpl.
  rewrite <- app_assoc. simpl.
  assert (Hin : forall r t,
             In (mkEdgeRow u a b r default_weight t)
                (knowledge_graph_table m
                   ++ [mkEdgeRow u a b r1 default_weight (clock (clock_reads m));
                       mkEdgeRow u a b r2 default_weight
                                 (clock (S (clock_reads m)))]) ->
             In r (map edge_relationship
                     (filter (fun x => (edge_user_id x =? u)
                                       && String.eqb (source_node x) a
                                       && String.eqb (target_node x) b)%bool
                             (knowledge_graph_table m
                                ++ [mkEdgeRow u a b r1 default_weight
                                              (clock (clock_reads m));
                                    mkEdgeRow u a b r2 default_weight
                                              (clock (S (clock_reads m)))])))).
  { intros r t H. apply in_map_iff. eexists. split; [| apply filter_In; split; [exact H |]].
    - reflexivity.
    - simpl. now rewrite Z.eqb_refl, !String.eqb_refl. }
  split; [reflexivity |]. unfold stored_labels, edge_labels. simpl.
  split; [eapply Hin; apply in_or_app; right; left; reflexivity |].
  split; [eapply Hin; apply in_or_app; right; right; left; reflexivity |].
  split; [| split].
  - rewrite successors_add_edge, String.eqb_refl.
    rewrite filter_key_dict_set; [reflexivity |].
    apply (simple_graph_add_edge _ _ _ _ Hg (user_node u a)).
  - apply get_edge_data_add_edge.
  - now apply simple_graph_add_edge, simple_graph_add_edge.
Qed.

End OneEdge.

(** C4 at work from the empty manager. *)
Lemma second_label_replaces_first_witness :
  edge_labels 1 "python" "loops"
    (exec (_add_to_graph (W := Demo.world) 1 "python" "loops" "related_to"
                         default_weight ;;;
           _add_to_graph (W := Demo.world) 1 "python" "loops" "depends_on"
                         default_weight) init)
  = ["depends_on"].
Proof.
  apply (second_label_replaces_first (W := Demo.world) 1 "python" "loops"
           "related_to" "depends_on" init).
  apply simple_graph_empty.
Defined.

(** C4 as stated fails: after the two insertions the first label is on no
    edge of the graph. *)
Lemma first_label_not_in_graph :
  ~ multigraph_contract (W := Demo.world) 1 "python" "loops"
      "related_to" "depends_on" init.
Proof.
  intros H.
  destruct H as (_ & Hfirst & _); [discriminate |].
  vm_compute in Hfirst. destruct Hfirst as [Hfirst | []]. discriminate Hfirst.
Qed.

(** ** Links in both directions (C5) *)

Lemma successors_absent (n : string) (g : DiGraph.t) :
  has_node n g = false -> successors n g = [].
Proof.
  unfold has_node, dict_mem, successors.
  now destruct (dict_get n g).
Qed.

Lemma get_related_concepts_neighbors (u : Z) (concept : string) (m : Manager) :
  get_related_concepts u concept m =
  map clean_neighbor (neighbors (user_node u concept) (knowledge_graph m)).
Proof.
  unfold get_related_concepts. rewrite fold_left_snoc_map. simpl.
  destruct (has_node (user_node u concept) (knowledge_graph m)) eqn:Hn;
    [reflexivity |].
  unfold neighbors. now rewrite successors_absent.
Qed.

Lemma related_of_neighbor (u : Z) (a b : string) (m : Manager) :
  In (user_node u b) (neighbors (user_node u a) (knowledge_graph m)) ->
  In b (get_related_concepts u a m).
Proof.
  intros H. rewrite get_related_concepts_neighbors.
  rewrite <- (clean_neighbor_user_node u b). now apply in_map.
Qed.

Section Links.
Context {W : World}.

Lemma link_concepts_run (u : Z) (a b r : string) (m : Manager) :
  link_concepts u a b r m =
  (Ok tt,
   mkManager (memory_entries m)
     (knowledge_graph_table m
        ++ [mkEdgeRow u a b r default_weight (clock (clock_reads m));
            mkEdgeRow u b a ("reverse_" ++ r)%string default_weight
                      (clock (S (clock_reads m)))])
     (add_edge (user_node u b) (user_node u a)
        (mkEdgeData ("reverse_" ++ r)%string default_weight)
        (add_edge (user_node u a) (user_node u b)
           (mkEdgeData r default_weight) (knowledge_graph m)))
     (S (S (clock_reads m)))).
Proof.
  unfold link_concepts, bind. rewrite !_add_to_graph_run. simpl.
  now rewrite <- app_assoc.
Qed.

(** C5.  [link_concepts] appends exactly two rows, [a -> b] labelled [r] and
    [b -> a] labelled ["reverse_" ++ r], and touches no memory entry;
    afterwards each of the two concepts lists the other among its related
    concepts, and the graph holds the reverse label on [b -> a] and, when
    the two concepts differ, the label [r] on [a -> b]. *)
Theorem link_concepts_bidirectional (u : Z) (a b r : string) (m : Manager) :
  let m' := exec (link_concepts u a b r) m in
  fst (link_concepts u a b r m) = Ok tt /\
  knowledge_graph_table m' =
    knowledge_graph_table m
      ++ [mkEdgeRow u a b r default_weight (clock (clock_reads m));
          mkEdgeRow u b a ("reverse_" ++ r)%string default_weight
                    (clock (S (clock_reads m)))] /\
  memory_entries m' = memory_entries m /\
  In b (get_related_concepts u a m') /\
  In a (get_related_concepts u b m') /\
  get_edge_data (user_node u b) (user_node u a) (knowledge_graph m') =
    Some (mkEdgeData ("reverse_" ++ r)%string default_weight) /\
  (a <> b ->
   get_edge_data (user_node u a) (user_node u b) (knowledge_graph m') =
     Some (mkEdgeData r default_weight)).
Proof.
  intros m'. subst m'. unfold exec. rewrite link_concepts_run. simpl.
  repeat split.
  - apply related_of_neighbor. simpl.
    apply neighbors_add_edge_old, neighbors_add_edge_new.
  - apply related_of_neighbor. simpl. apply neighbors_add_edge_new.
  - apply get_edge_data_add_edge.
  - intros Hab. unfold get_edge_data. rewrite successors_add_edge.
    destruct (String.eqb_spec (user_node u b) (user_node u a)) as [E | _].
    + apply user_node_inj in E as [_ E]. now elim Hab.
    + apply get_edge_data_add_edge.
Qed.

End Links.

(** The example of the specification: [link(u, "A", "B", "related_to")]. *)
Example link_concepts_related_to :
  let m := exec (link_concepts (W := Demo.world) 1 "A" "B" "related_to") init in
  map (fun r => (source_node r, target_node r, edge_relationship r))
      (knowledge_graph_table m)
  = [("A", "B", "related_to"); ("B", "A", "reverse_related_to")] /\
  get_related_concepts 1 "A" m = ["B"] /\
  get_related_concepts 1 "B" m = ["A"].
Proof. repeat split. Qed.

(** ** Semantic entries add forward edges only (C6) *)

Section Forward.
Context {W : World}.

Lemma keeps_successors_refl (node : string) (m : Manager) :
  keeps_successors node m m.
Proof. reflexivity. Qed.

Lemma keeps_successors_trans (node : string) (a b c : Manager) :
  keeps_successors node a b -> keeps_successors node b c ->
  keeps_successors node a c.
Proof. unfold keeps_successors. congruence. Qed.

Lemma now_keeps_successors (node : string) :
  respects (keeps_successors node) now.
Proof. intros m. reflexivity. Qed.

Lemma delete_keeps_successors (node : string) (keep : EntryRow -> bool) :
  respects (keeps_successors node) (delete_memory_entries keep).
Proof. intros m. reflexivity. Qed.

Lemma _store_entry_keeps_successors (node : string) (entry : MemoryEntry) :
  respects (keeps_successors node) (_store_entry entry).
Proof.
  intros m. unfold _store_entry. now destruct (encode (content entry)).
Qed.

Lemma _add_to_graph_keeps_successors (node : string) (u : Z)
    (s t r : string) (w : Q) :
  node <> user_node u s ->
  respects (keeps_successors node) (_add_to_graph u s t r w).
Proof.
  intros Hn m. rewrite _add_to_graph_run. unfold keeps_successors. simpl.
  rewrite successors_add_edge.
  destruct (String.eqb_spec (user_node u s) node) as [E | _]; [| reflexivity].
  now elim Hn.
Qed.

Lemma related_edges_rows (u : Z) (c : string) (related : list string)
    (m : Manager) :
  exists rows,
    knowledge_graph_table
      (snd (for_each related
              (fun y => _add_to_graph u c y "related_to" default_weight) m))
    = knowledge_graph_table m ++ rows /\
    map edge_key rows = map (fun y => (u, c, y, "related_to")) related.
Proof.
  revert m. induction related as [| y related IH]; intros m; simpl.
  - exists []. now rewrite app_nil_r.
  - unfold bind. rewrite _add_to_graph_run.
    match goal with
    | |- context [for_each related _ ?m1] =>
        destruct (IH m1) as (rows & Htable & Hkeys)
    end.
    exists (mkEdgeRow u c y "related_to" default_weight (clock (clock_reads m))
            :: rows).
    split.
    + rewrite Htable. simpl. now rewrite <- app_assoc.
    + simpl. now rewrite Hkeys.
Qed.

(** C6, amended.  [store_semantic u c related] appends one row [c -> y]
    labelled ["related_to"] per listed concept [y], in order, and no other
    row (none at all when the embedding fails); for every label [x] other
    than [c] the related concepts of [x] are what they were before, so [c]
    is among them afterwards only if it already was. *)
Theorem store_semantic_forward_only (u : Z) (c x : string)
    (related : list string) (m : Manager) :
  x <> c ->
  let m' := exec (store_semantic u c related) m in
  get_related_concepts u x m' = get_related_concepts u x m /\
  (~ In c (get_related_concepts u x m) ->
   ~ In c (get_related_concepts u x m')) /\
  exists rows,
    knowledge_graph_table m' = knowledge_graph_table m ++ rows /\
    match encode c with
    | Some _ => map edge_key rows = map (fun y => (u, c, y, "related_to")) related
    | None => rows = []
    end.
Proof.
  intros Hx m'.
  assert (Hsame : get_related_concepts u x m' = get_related_concepts u x m).
  { rewrite !get_related_concepts_neighbors. unfold neighbors.
    subst m'. unfold exec.
    assert (H : respects (keeps_successors (user_node u x))
                         (store_semantic u c related)).
    { pose proof (keeps_successors_refl (user_node u x)) as Hr.
      pose proof (keeps_successors_trans (user_node u x)) as Ht.
      unfold store_semantic.
      steps_with ltac:(on_step
                         ltac:(apply now_keeps_successors)
                         ltac:(apply _store_entry_keeps_successors)
                         ltac:(apply _add_to_graph_keeps_successors;
                               intros E; apply user_node_inj in E as [_ E];
                               now apply Hx)
                         fail fail). }
    now rewrite (H m). }
  split; [exact Hsame |]. split; [now rewrite Hsame |].
  subst m'. unfold exec, store_semantic, bind, now, _store_entry. simpl.
  destruct (encode c) as [e |]; simpl.
  - match goal with
    | |- context [for_each related _ ?m1] =>
        destruct (related_edges_rows u c related m1) as (rows & Htable & Hkeys)
    end.
    exists rows. split; [exact Htable | exact Hkeys].
  - exists []. now rewrite app_nil_r.
Qed.

End Forward.

(** C6 at work on the example of the specification. *)
Lemma store_semantic_forward_only_witness :
  get_related_concepts 1 "loops"
    (exec (store_semantic (W := Demo.world) 1 "recursion"
                          ["loops"; "functions"]) init)
  = get_related_concepts 1 "loops" init.
Proof.
  apply (store_semantic_forward_only (W := Demo.world) 1 "recursion" "loops"
           ["loops"; "functions"] init).
  discriminate.
Defined.

(** C6 as stated fails when the concept is in its own list: the forward edge
    is then a loop and the concept becomes related to itself. *)
Lemma concept_related_to_itself :
  ~ forward_only_contract (W := Demo.world) 1 "a" ["a"] init.
Proof.
  intros H. apply (H "a").
  - now left.
  - intros [].
  - vm_compute. now left.
Qed.

(** ** The graph reads depend on the successors of the user's nodes only *)

Lemma fold_left_ext_in {A B : Type} (f g : A -> B -> A) (l : list B) (a : A) :
  (forall x y, In y l -> f x y = g x y) -> fold_left f l a = fold_left g l a.
Proof.
  revert a. induction l as [| y l IH]; intros a H; simpl; [reflexivity |].
  rewrite (H a y) by now left.
  apply IH. intros x z Hz. apply H. now right.
Qed.

Lemma visit_concept_fold (u : Z) (g : DiGraph.t) (ctx : GraphContext)
    (concept : string) :
  visit_concept u g ctx concept =
  fold_left (place_neighbor g concept (user_node u concept))
            (neighbors (user_node u concept) g) ctx.
Proof.
  unfold visit_concept.
  destruct (has_node (user_node u concept) g) eqn:Hn; [reflexivity |].
  unfold neighbors. now rewrite successors_absent.
Qed.

Lemma visit_concept_successors (u : Z) (g g' : DiGraph.t) (ctx : GraphContext)
    (concept : string) :
  successors (user_node u concept) g' = successors (user_node u concept) g ->
  visit_concept u g' ctx concept = visit_concept u g ctx concept.
Proof.
  intros H. rewrite !visit_concept_fold. unfold neighbors. rewrite H.
  apply fold_left_ext_in. intros x y _.
  unfold place_neighbor, get_edge_data. now rewrite H.
Qed.

Lemma get_graph_context_successors (u : Z) (query : string) (m m' : Manager) :
  (forall concept, keeps_successors (user_node u concept) m m') ->
  get_graph_context u query m' = get_graph_context u query m.
Proof.
  intros H. unfold get_graph_context.
  apply fold_left_ext_in. intros ctx concept _.
  apply visit_concept_successors, H.
Qed.

Lemma get_related_concepts_successors (u : Z) (concept : string)
    (m m' : Manager) :
  keeps_successors (user_node u concept) m m' ->
  get_related_concepts u concept m' = get_related_concepts u concept m.
Proof.
  intros H. rewrite !get_related_concepts_neighbors. unfold neighbors.
  now rewrite H.
Qed.

(** ** Users do not see each other's graph (C9) *)

Lemma user_scoped_add_edge (u : Z) (s t : string) (d : EdgeData)
    (g : DiGraph.t) :
  user_scoped g -> user_scoped (add_edge (user_node u s) (user_node u t) d g).
Proof.
  intros Hg n v. unfold neighbors. rewrite successors_add_edge.
  destruct (String.eqb_spec (user_node u s) n) as [<- | _]; [| apply Hg].
  rewrite dict_set_keys. intros [-> | Hv].
  - now exists u, s, t.
  - now apply Hg.
Qed.

Lemma user_scoped_empty : user_scoped DiGraph.empty.
Proof. intros n v []. Qed.

Section Isolation.
Context {W : World}.

Let keeps_scoped (m m' : Manager) : Prop :=
  user_scoped (knowledge_graph m) -> user_scoped (knowledge_graph m').

Lemma run_call_keeps_successors (node : string) (call : Call) :
  (forall label, node <> user_node (call_user call) label) ->
  respects (keeps_successors node) (run_call call).
Proof.
  intros Hnode.
  pose proof (keeps_successors_refl node) as Hr.
  pose proof (keeps_successors_trans node) as Ht.
  destruct call; cbn [run_call call_user] in *;
    unfold store_conversation, store_episodic, store_semantic,
      create_learning_path_graph, cleanup_old_memories, link_concepts, as_str;
    steps_with ltac:(on_step
                       ltac:(apply now_keeps_successors)
                       ltac:(apply _store_entry_keeps_successors)
                       ltac:(apply _add_to_graph_keeps_successors; apply Hnode)
                       fail
                       ltac:(apply delete_keeps_successors)).
Qed.

Lemma run_call_keeps_scoped (call : Call) :
  respects keeps_scoped (run_call call).
Proof.
  assert (Hr : forall m, keeps_scoped m m) by (intros m H; exact H).
  assert (Ht : forall a b c, keeps_scoped a b -> keeps_scoped b c ->
                             keeps_scoped a c)
    by (unfold keeps_scoped; auto).
  assert (Hadd : forall u s t r w, respects keeps_scoped (_add_to_graph u s t r w)).
  { intros u s t r w m Hm. rewrite _add_to_graph_run. simpl.
    now apply user_scoped_add_edge. }
  assert (Hnow : respects keeps_scoped now) by (intros m Hm; exact Hm).
  assert (Hdelete : forall keep, respects keeps_scoped (delete_memory_entries keep))
    by (intros keep m Hm; exact Hm).
  assert (Hstore : forall entry, respects keeps_scoped (_store_entry entry)).
  { intros entry m Hm. unfold _store_entry.
    now destruct (encode (content entry)). }
  destruct call; cbn [run_call];
    unfold store_conversation, store_episodic, store_semantic,
      create_learning_path_graph, cleanup_old_memories, link_concepts, as_str;
    steps_with ltac:(on_step ltac:(apply Hnow) ltac:(apply Hstore)
                             ltac:(apply Hadd) fail ltac:(apply Hdelete)).
Qed.

(** C9.  Whatever calls another user makes, in any number and order and
    also on the same concept labels, [get_related_concepts] and
    [get_graph_context] of user [u1] return what they returned before; and
    the calls keep every edge of the graph between two nodes of one user. *)
Theorem other_users_writes_unseen (u1 : Z) (calls : list Call) (m : Manager) :
  Forall (fun c => call_user c <> u1) calls ->
  (forall concept,
      get_related_concepts u1 concept (run_calls calls m) =
      get_related_concepts u1 concept m) /\
  (forall query,
      get_graph_context u1 query (run_calls calls m) =
      get_graph_context u1 query m) /\
  (user_scoped (knowledge_graph m) ->
   user_scoped (knowledge_graph (run_calls calls m))).
Proof.
  intros Hcalls.
  assert (Hview : forall concept,
             keeps_successors (user_node u1 concept) m (run_calls calls m)).
  { intros concept. revert m.
    induction Hcalls as [| call calls Hcall _ IH]; intros m; simpl.
    - apply keeps_successors_refl.
    - eapply keeps_successors_trans; [| apply IH].
      apply (run_call_keeps_successors (user_node u1 concept) call).
      intros label E. apply user_node_inj in E as [E _]. now apply Hcall. }
  split; [| split].
  - intros concept. apply get_related_concepts_successors, Hview.
  - intros query. now apply get_graph_context_successors.
  - clear Hcalls Hview. revert m.
    induction calls as [| call calls IH]; intros m Hm; simpl; [exact Hm |].
    apply IH. now apply (run_call_keeps_scoped call m).
Qed.

End Isolation.

(** C9 at work on the label ["python"], used by both users. *)
Lemma other_users_writes_unseen_witness :
  get_related_concepts 1 "python"
    (run_calls (W := Demo.world) writes_of_user_2 python_of_user_1)
  = ["loops"].
Proof.
  destruct (other_users_writes_unseen (W := Demo.world) 1 writes_of_user_2
              python_of_user_1) as (Hrelated & _ & _).
  - repeat constructor; discriminate.
  - rewrite Hrelated. reflexivity.
Defined.

(** ** Resources without a keyword leave no trace (C10) *)

Lemma untouched_refl (u : Z) (label : string) (m : Manager) :
  untouched u label m m.
Proof.
  split; [| split].
  - exists []. now rewrite app_nil_r.
  - reflexivity.
  - trivial.
Qed.

Lemma untouched_trans (u : Z) (label : string) (a b c : Manager) :
  untouched u label a b -> untouched u label b c -> untouched u label a c.
Proof.
  intros ((r1 & T1 & F1) & S1 & N1) ((r2 & T2 & F2) & S2 & N2).
  split; [| split].
  - exists (r1 ++ r2). split.
    + now rewrite T2, T1, app_assoc.
    + apply Forall_app. now split.
  - unfold keeps_successors in *. congruence.
  - auto.
Qed.

Section LearningPath.
Context {W : World}.

Lemma _add_to_graph_untouched (u : Z) (label s t r : string) (w : Q) :
  s <> label -> t <> label ->
  respects (untouched u label) (_add_to_graph u s t r w).
Proof.
  intros Hs Ht m. rewrite _add_to_graph_run. unfold untouched. simpl.
  split; [| split].
  - eexists. split; [reflexivity |]. repeat constructor; assumption.
  - unfold keeps_successors. simpl. rewrite successors_add_edge.
    destruct (String.eqb_spec (user_node u s) (user_node u label)) as [E | _];
      [| reflexivity].
    apply user_node_inj in E as [_ E]. now elim Hs.
  - intros n. unfold neighbors. rewrite successors_add_edge.
    destruct (String.eqb_spec (user_node u s) n) as [<- | _]; [| trivial].
    rewrite dict_set_keys. intros [E | H]; [| exact H].
    apply user_node_inj in E as [_ E]. now elim Ht.
Qed.

Lemma link_concepts_untouched (u : Z) (label a b r : string) :
  a <> label -> b <> label ->
  respects (untouched u label) (link_concepts u a b r).
Proof.
  intros Ha Hb.
  pose proof (untouched_refl u label) as Hr.
  pose proof (untouched_trans u label) as Ht.
  unfold link_concepts.
  steps_with ltac:(on_step fail fail
                           ltac:(apply _add_to_graph_untouched; assumption)
                           fail fail).
Qed.

Lemma bind_ext {A B : Type} (c : M A) (k k' : A -> M B) (m : Manager) :
  (forall a m1, k a m1 = k' a m1) -> bind c k m = bind c k' m.
Proof.
  intros H. unfold bind. destruct (c m) as [[a | e] m1]; [apply H | reflexivity].
Qed.

Lemma for_each_skip {A : Type} (keep : A -> bool) (body : A -> M unit)
    (xs : list A) (m : Manager) :
  (forall x, keep x = false -> body x = ret tt) ->
  for_each xs body m = for_each (filter keep xs) body m.
Proof.
  intros Hskip. revert m. induction xs as [| x xs IH]; intros m; simpl.
  - reflexivity.
  - destruct (keep x) eqn:Hx; simpl.
    + apply bind_ext. intros _ m1. apply IH.
    + rewrite (Hskip x Hx). unfold bind, ret. apply IH.
Qed.

(** C10.  A resource with none of the words "youtube", "video", "notes",
    "drive" is passed over: the call has the same result and leaves the same
    state as the call on the resources that carry a keyword, and as the
    ["teaches"] link alone when no resource carries one.  When moreover the
    text of that resource is neither the concept nor the day node, no row
    naming it is appended and its node gets no edge in the graph. *)
Theorem unmatched_resource_dropped (u day : Z) (concept r : string)
    (resources : list string) (m : Manager) :
  has_resource_keyword r = false ->
  In r resources ->
  create_learning_path_graph u day concept resources m =
    create_learning_path_graph u day concept
      (filter has_resource_keyword resources) m /\
  (Forall (fun x => has_resource_keyword x = false) resources ->
   create_learning_path_graph u day concept resources m =
     link_concepts u ("day_" ++ str_int day)%string concept "teaches" m) /\
  (r <> concept -> r <> ("day_" ++ str_int day)%string ->
   untouched u r m (exec (create_learning_path_graph u day concept resources) m)).
Proof.
  intros Hr Hin.
  assert (Hskip : forall x,
             has_resource_keyword x = false ->
             (if (contains "youtube" x || contains "video" x)%bool
              then link_concepts u concept x "video_resource"
              else if (contains "notes" x || contains "drive" x)%bool
                   then link_concepts u concept x "note_resource"
                   else ret tt) = ret tt).
  { intros x Hx. unfold has_resource_keyword in Hx.
    apply orb_false_iff in Hx as [Hx Hd].
    apply orb_false_iff in Hx as [Hx Hn].
    now rewrite Hx, Hn, Hd. }
  assert (Hfilter : create_learning_path_graph u day concept resources m =
                    create_learning_path_graph u day concept
                      (filter has_resource_keyword resources) m).
  { unfold create_learning_path_graph. apply bind_ext. intros _ m1.
    now apply for_each_skip. }
  split; [exact Hfilter |]. split.
  - intros Hall. rewrite Hfilter.
    replace (filter has_resource_keyword resources) with (@nil string).
    + unfold create_learning_path_graph, bind. simpl.
      destruct (link_concepts u ("day_" ++ str_int day)%string concept "teaches" m)
        as [[[] | e] m1]; reflexivity.
    + symmetry. now apply filter_none.
  - intros Hconcept Hday. unfold exec.
    assert (H : respects (untouched u r)
                         (create_learning_path_graph u day concept resources)).
    { pose proof (untouched_refl u r) as Hrefl.
      pose proof (untouched_trans u r) as Htrans.
      unfold create_learning_path_graph.
      apply respects_bind; [assumption | | intros _].
      - apply link_concepts_untouched; auto.
      - apply respects_for_each; [assumption | assumption |].
        intros x _.
        destruct (has_resource_keyword x) eqn:Hx.
        + assert (Hxr : x <> r) by (intros ->; congruence).
          destruct (contains "youtube" x || contains "video" x)%bool;
            [now apply link_concepts_untouched |].
          destruct (contains "notes" x || contains "drive" x)%bool;
            [now apply link_concepts_untouched | now apply respects_ret].
        + rewrite (Hskip x Hx). now apply respects_ret. }
    exact (H m).
Qed.

End LearningPath.

(** C10 at work: the resource ["textbook chapter 4"] leaves no trace. *)
Lemma unmatched_resource_dropped_witness :
  create_learning_path_graph (W := Demo.world) 1 5 "recursion"
    ["youtube.com/watch"; "textbook chapter 4"] init =
  create_learning_path_graph (W := Demo.world) 1 5 "recursion"
    ["youtube.com/watch"] init.
Proof.
  apply (unmatched_resource_dropped (W := Demo.world) 1 5 "recursion"
           "textbook chapter 4" ["youtube.com/watch"; "textbook chapter 4"]
           init).
  - reflexivity.
  - simpl. auto.
Defined.

(** ** Classification of the neighbours (C7) *)

Lemma grows_refl (c : GraphContext) : grows c c.
Proof.
  split; [apply incl_refl | split; [apply incl_refl |]].
  intros k l x Hk Hx. now exists l.
Qed.

Lemma grows_trans (a b c : GraphContext) : grows a b -> grows b c -> grows a c.
Proof.
  intros (N1 & V1 & D1) (N2 & V2 & D2).
  split; [eapply incl_tran; eassumption |].
  split; [eapply incl_tran; eassumption |].
  intros k l x Hk Hx.
  destruct (D1 k l x Hk Hx) as (l' & Hk' & Hx'). now apply (D2 k l' x).
Qed.

Lemma append_dependency_new (concept x : string) (deps : dict (list string)) :
  exists l, dict_get concept (append_dependency concept x deps) = Some l /\
            In x l.
Proof.
  unfold append_dependency.
  destruct (dict_get concept deps) as [l |];
    rewrite dict_get_set, String.eqb_refl; eexists; (split; [reflexivity |]).
  - apply in_or_app. right. now left.
  - now left.
Qed.

Lemma append_dependency_old (concept x k y : string) (l : list string)
    (deps : dict (list string)) :
  dict_get k deps = Some l -> In y l ->
  exists l', dict_get k (append_dependency concept x deps) = Some l' /\
             In y l'.
Proof.
  intros Hk Hy. unfold append_dependency.
  destruct (dict_get concept deps) as [l0 |] eqn:Hc; rewrite dict_get_set;
    destruct (String.eqb_spec concept k) as [-> | _];
    try (exists l; now split).
  - rewrite Hk in Hc. injection Hc as <-.
    eexists. split; [reflexivity |]. apply in_or_app. now left.
  - congruence.
Qed.

Lemma place_neighbor_grows (g : DiGraph.t) (concept user_concept : string)
    (ctx : GraphContext) (neighbor : string) :
  grows ctx (place_neighbor g concept user_concept ctx neighbor).
Proof.
  unfold place_neighbor.
  repeat match goal with
         | |- context [if ?b then _ else _] => destruct b
         end;
    try apply grows_refl;
    (split; [| split]); simpl;
    try apply incl_refl; try (apply incl_appl, incl_refl);
    try (intros k l x Hk Hx; now exists l).
  intros k l x Hk Hx. now apply append_dependency_old with l.
Qed.

Lemma fold_grows {A : Type} (f : GraphContext -> A -> GraphContext)
    (xs : list A) (ctx : GraphContext) :
  (forall c x, grows c (f c x)) -> grows ctx (fold_left f xs ctx).
Proof.
  intros Hf. revert ctx. induction xs as [| x xs IH]; intros ctx; simpl.
  - apply grows_refl.
  - eapply grows_trans; [apply Hf | apply IH].
Qed.

Lemma visit_concept_grows (u : Z) (g : DiGraph.t) (ctx : GraphContext)
    (concept : string) :
  grows ctx (visit_concept u g ctx concept).
Proof.
  rewrite visit_concept_fold. apply fold_grows.
  intros c x. apply place_neighbor_grows.
Qed.

Lemma classified_grows (concept relationship clean : string)
    (c1 c2 : GraphContext) :
  classified concept relationship clean c1 -> grows c1 c2 ->
  classified concept relationship clean c2.
Proof.
  intros (Hn & Hv & Hd) (N & V & D). split; [| split].
  - intros H. now apply N, Hn.
  - intros H1 H2. now apply V, Hv.
  - intros H1 H2 H3. destruct (Hd H1 H2 H3) as (l & Hl & Hx).
    now apply (D concept l clean).
Qed.

Lemma place_neighbor_classified (g : DiGraph.t) (concept user_concept : string)
    (ctx : GraphContext) (neighbor : string) (edge_data : EdgeData) :
  get_edge_data user_concept neighbor g = Some edge_data ->
  classified concept (relationship edge_data) (clean_neighbor neighbor)
             (place_neighbor g concept user_concept ctx neighbor).
Proof.
  intros He. unfold place_neighbor, classified, note_like, video_like.
  rewrite He.
  destruct (contains "note" (relationship edge_data)
            || contains "day" (lower (clean_neighbor neighbor)))%bool;
    [| destruct (contains "video" (relationship edge_data)
                 || contains "youtube" (lower (clean_neighbor neighbor)))%bool;
       [| destruct (contains "depends" (relationship edge_data))]];
    (split; [| split]); simpl; try discriminate; try congruence; intros.
  - apply in_or_app. right. now left.
  - apply in_or_app. right. now left.
  - apply append_dependency_new.
Qed.

Lemma fold_classified {A : Type} (f : GraphContext -> A -> GraphContext)
    (P : GraphContext -> Prop) (xs : list A) (x : A) (ctx : GraphContext) :
  (forall c y, grows c (f c y)) ->
  (forall c c', P c -> grows c c' -> P c') ->
  (forall c, P (f c x)) ->
  In x xs -> P (fold_left f xs ctx).
Proof.
  intros Hgrow Hmono Hx Hin.
  apply in_split in Hin as (l1 & l2 & ->).
  rewrite fold_left_app. simpl.
  eapply Hmono; [apply Hx | now apply fold_grows].
Qed.

Lemma fold_visit_absent (u : Z) (g : DiGraph.t) (concepts : list string)
    (ctx : GraphContext) :
  Forall (fun concept => has_node (user_node u concept) g = false) concepts ->
  fold_left (visit_concept u g) concepts ctx = ctx.
Proof.
  intros Hall. revert ctx.
  induction Hall as [| concept concepts Hc _ IH]; intros ctx.
  - reflexivity.
  - cbn [fold_left]. unfold visit_concept at 2. rewrite Hc. apply IH.
Qed.

(** *** Every neighbour in one bucket only *)

Lemma add_list_app (found : option (list string)) (l1 l2 : list string) :
  add_list (add_list found l1) l2 = add_list found (l1 ++ l2).
Proof.
  destruct l1 as [| x l1]; [reflexivity |].
  destruct l2 as [| y l2]; simpl.
  - now rewrite app_nil_r.
  - destruct found as [l0 |]; simpl; [| reflexivity].
    now rewrite <- app_assoc.
Qed.

Lemma add_list_none (l : list string) : add_list None l = listed l.
Proof. destruct l; reflexivity. Qed.

Lemma append_dependency_get (concept x k : string) (deps : dict (list string)) :
  dict_get k (append_dependency concept x deps) =
  add_list (dict_get k deps) (if String.eqb concept k then [x] else []).
Proof.
  unfold append_dependency.
  destruct (dict_get concept deps) as [l |] eqn:Hc; rewrite dict_get_set;
    destruct (String.eqb_spec concept k) as [<- | Hk]; simpl;
    rewrite ?Hc; reflexivity.
Qed.

Lemma place_neighbor_first_match (g : DiGraph.t) (concept user_concept : string)
    (ctx : GraphContext) (neighbor : string) :
  place_neighbor g concept user_concept ctx neighbor =
  let clean := clean_neighbor neighbor in
  match first_match (relationship_read g user_concept neighbor) clean with
  | Notes =>
      mkGraphContext (related_notes ctx ++ [clean]) (related_videos ctx)
                     (concept_dependencies ctx) (learning_path ctx)
  | Videos =>
      mkGraphContext (related_notes ctx) (related_videos ctx ++ [clean])
                     (concept_dependencies ctx) (learning_path ctx)
  | Dependencies =>
      mkGraphContext (related_notes ctx) (related_videos ctx)
                     (append_dependency concept clean (concept_dependencies ctx))
                     (learning_path ctx)
  | Nowhere => ctx
  end.
Proof.
  unfold place_neighbor, first_match, note_like, video_like, relationship_read.
  cbv zeta.
  destruct (contains "note" _ || contains "day" _)%bool; [reflexivity |].
  destruct (contains "video" _ || contains "youtube" _)%bool; [reflexivity |].
  destruct (contains "depends" _); reflexivity.
Qed.

Lemma place_neighbor_step (g : DiGraph.t) (concept user_concept : string)
    (ctx : GraphContext) (n : string) :
  let ctx' := place_neighbor g concept user_concept ctx n in
  related_notes ctx' =
    related_notes ctx
    ++ (if in_bucket g Notes user_concept n then [clean_neighbor n] else []) /\
  related_videos ctx' =
    related_videos ctx
    ++ (if in_bucket g Videos user_concept n then [clean_neighbor n] else []) /\
  (forall k,
      dict_get k (concept_dependencies ctx') =
      add_list (dict_get k (concept_dependencies ctx))
               (if String.eqb concept k
                then if in_bucket g Dependencies user_concept n
                     then [clean_neighbor n] else []
                else [])) /\
  learning_path ctx' = learning_path ctx.
Proof.
  cbv zeta. rewrite place_neighbor_first_match. unfold in_bucket. cbv zeta.
  destruct (first_match (relationship_read g user_concept n)
                        (clean_neighbor n));
    cbn [Bucket_eqb related_notes related_videos concept_dependencies
         learning_path]; rewrite ?app_nil_r;
    (split; [reflexivity |]); (split; [reflexivity |]);
    (split; [| reflexivity]); intros k;
    try (now destruct (String.eqb concept k)).
  apply append_dependency_get.
Qed.

Lemma fold_place_neighbor (g : DiGraph.t) (concept user_concept : string)
    (ns : list string) (ctx : GraphContext) :
  let ctx' := fold_left (place_neighbor g concept user_concept) ns ctx in
  related_notes ctx' =
    related_notes ctx
    ++ map clean_neighbor (filter (in_bucket g Notes user_concept) ns) /\
  related_videos ctx' =
    related_videos ctx
    ++ map clean_neighbor (filter (in_bucket g Videos user_concept) ns) /\
  (forall k,
      dict_get k (concept_dependencies ctx') =
      add_list (dict_get k (concept_dependencies ctx))
               (if String.eqb concept k
                then map clean_neighbor
                         (filter (in_bucket g Dependencies user_concept) ns)
                else [])) /\
  learning_path ctx' = learning_path ctx.
Proof.
  revert ctx. induction ns as [| n ns IH]; intros ctx; cbn [fold_left].
  - cbn [filter map]. rewrite !app_nil_r. repeat split.
    intros k. now destruct (String.eqb concept k).
  - destruct (IH (place_neighbor g concept user_concept ctx n))
      as (HN & HV & HD & HL).
    destruct (place_neighbor_step g concept user_concept ctx n)
      as (N1 & V1 & D1 & L1).
    cbv zeta in *. rewrite HN, HV, HL, N1, V1, L1. cbn [filter].
    split; [| split; [| split; [| reflexivity]]].
    + rewrite <- app_assoc.
      now destruct (in_bucket g Notes user_concept n).
    + rewrite <- app_assoc.
      now destruct (in_bucket g Videos user_concept n).
    + intros k. rewrite HD, D1, add_list_app.
      destruct (String.eqb concept k); [| reflexivity].
      now destruct (in_bucket g Dependencies user_concept n).
Qed.

Lemma visit_concept_filed (u : Z) (g : DiGraph.t) (ctx : GraphContext)
    (concept : string) :
  let ctx' := visit_concept u g ctx concept in
  related_notes ctx' = related_notes ctx ++ filed u g Notes concept /\
  related_videos ctx' = related_videos ctx ++ filed u g Videos concept /\
  (forall k,
      dict_get k (concept_dependencies ctx') =
      add_list (dict_get k (concept_dependencies ctx))
               (if String.eqb concept k
                then filed u g Dependencies concept else [])) /\
  learning_path ctx' = learning_path ctx.
Proof.
  unfold visit_concept, filed. cbv zeta.
  destruct (DiGraph.has_node (user_node u concept) g).
  - apply fold_place_neighbor.
  - rewrite !app_nil_r. repeat split.
    intros k. now destruct (String.eqb concept k).
Qed.

Lemma fold_visit_concept_filed (u : Z) (g : DiGraph.t) (concepts : list string)
    (ctx : GraphContext) :
  let ctx' := fold_left (visit_concept u g) concepts ctx in
  related_notes ctx' =
    related_notes ctx ++ flat_map (filed u g Notes) concepts /\
  related_videos ctx' =
    related_videos ctx ++ flat_map (filed u g Videos) concepts /\
  (forall k,
      dict_get k (concept_dependencies ctx') =
      add_list (dict_get k (concept_dependencies ctx))
               (flat_map (fun c => if String.eqb c k
                                   then filed u g Dependencies c else [])
                         concepts)) /\
  learning_path ctx' = learning_path ctx.
Proof.
  revert ctx. induction concepts as [| c cs IH]; intros ctx;
    cbn [fold_left flat_map].
  - rewrite !app_nil_r. repeat split.
  - destruct (IH (visit_concept u g ctx c)) as (HN & HV & HD & HL).
    destruct (visit_concept_filed u g ctx c) as (N1 & V1 & D1 & L1).
    cbv zeta in *. rewrite HN, HV, HL, N1, V1, L1.
    rewrite <- !app_assoc. repeat split.
    intros k. now rewrite HD, D1, add_list_app.
Qed.

Lemma get_graph_context_first_match (u : Z) (query : string) (m : Manager) :
  first_match_context u query m (get_graph_context u query m).
Proof.
  unfold first_match_context, get_graph_context. cbv zeta.
  destruct (fold_visit_concept_filed u (knowledge_graph m)
              (_extract_concepts query) empty_context) as (HN & HV & HD & HL).
  cbv zeta in *. rewrite HN, HV, HL. repeat split.
  intros concept. rewrite HD. apply add_list_none.
Qed.

(** C7, amended.  Each neighbour of an extracted concept goes to the bucket
    of the first test it passes, and to that bucket only: [related_notes]
    when the relationship contains "note" or the neighbour's lower-cased
    label contains "day"; otherwise [related_videos] when the relationship
    contains "video" or the label contains "youtube"; otherwise the
    dependencies of the concept when the relationship contains "depends";
    otherwise nowhere.  The three buckets of the context returned hold
    exactly these placements, concept by concept and neighbour by
    neighbour, and the learning path is empty.  So a ["note_resource"]
    neighbour is always among the notes, and a ["video_resource"] neighbour
    is among the videos when its label has no "day" in it.  A concept
    without a node leaves the context as it was. *)
Theorem neighbors_classified_in_order (u : Z) (query : string) (m : Manager) :
  first_match_context u query m (get_graph_context u query m) /\
  (forall concept neighbor edge_data,
      In concept (_extract_concepts query) ->
      In neighbor (neighbors (user_node u concept) (knowledge_graph m)) ->
      get_edge_data (user_node u concept) neighbor (knowledge_graph m)
        = Some edge_data ->
      let ctx := get_graph_context u query m in
      let clean := clean_neighbor neighbor in
      classified concept (relationship edge_data) clean ctx /\
      (relationship edge_data = "note_resource" ->
       In clean (related_notes ctx)) /\
      (relationship edge_data = "video_resource" ->
       contains "day" (lower clean) = false ->
       In clean (related_videos ctx))) /\
  (forall ctx concept,
      has_node (user_node u concept) (knowledge_graph m) = false ->
      visit_concept u (knowledge_graph m) ctx concept = ctx) /\
  (Forall (fun concept =>
             has_node (user_node u concept) (knowledge_graph m) = false)
          (_extract_concepts query) ->
   get_graph_context u query m = empty_context).
Proof.
  split; [apply get_graph_context_first_match |].
  split; [| split].
  - intros concept neighbor edge_data Hc Hn He ctx clean.
    assert (H : classified concept (relationship edge_data) clean ctx).
    { subst ctx clean. unfold get_graph_context.
      apply fold_classified with (x := concept).
      - intros c y. apply visit_concept_grows.
      - intros c c'. apply classified_grows.
      - intros c. rewrite visit_concept_fold.
        apply fold_classified with (x := neighbor).
        + intros c0 y. apply place_neighbor_grows.
        + intros c0 c'. apply classified_grows.
        + intros c0. now apply place_neighbor_classified.
        + exact Hn.
      - exact Hc. }
    split; [exact H |]. destruct H as (Hnote & Hvideo & _). split.
    + intros Hr. apply Hnote. unfold note_like. now rewrite Hr.
    + intros Hr Hday. apply Hvideo; unfold note_like, video_like;
        now rewrite Hr, ?Hday.
  - intros ctx concept Hn. unfold visit_concept. now rewrite Hn.
  - intros Hall. unfold get_graph_context. now apply fold_visit_absent.
Qed.

(** C7 at work: one neighbour of "python" in each bucket. *)
Lemma neighbors_classified_in_order_witness :
  let ctx := get_graph_context 1 "python" python_resources in
  In "drive/notes.pdf" (related_notes ctx) /\
  In "lecture video" (related_videos ctx) /\
  (exists l, dict_get "python" (concept_dependencies ctx) = Some l /\
             In "variables" l).
Proof.
  intros ctx.
  destruct (neighbors_classified_in_order 1 "python" python_resources)
    as (_ & H & _ & _).
  assert (Hc : In "python" (_extract_concepts "python")) by (now left).
  assert (Hnote : In "1:drive/notes.pdf"
                     (neighbors (user_node 1 "python")
                                (knowledge_graph python_resources)))
    by (do 2 right; left; reflexivity).
  assert (Hvideo : In "1:lecture video"
                      (neighbors (user_node 1 "python")
                                 (knowledge_graph python_resources)))
    by (right; left; reflexivity).
  assert (Hdep : In "1:variables"
                    (neighbors (user_node 1 "python")
                               (knowledge_graph python_resources)))
    by (do 3 right; left; reflexivity).
  destruct (H "python" "1:drive/notes.pdf"
              (mkEdgeData "note_resource" default_weight) Hc Hnote eq_refl)
    as (_ & Hnotes & _).
  destruct (H "python" "1:lecture video"
              (mkEdgeData "video_resource" default_weight) Hc Hvideo eq_refl)
    as (_ & _ & Hvideos).
  destruct (H "python" "1:variables"
              (mkEdgeData "depends_on" default_weight) Hc Hdep eq_refl)
    as ((_ & _ & Hdeps) & _ & _).
  split; [exact (Hnotes eq_refl) |].
  split; [exact (Hvideos eq_refl eq_refl) |].
  exact (Hdeps eq_refl eq_refl eq_refl).
Defined.

(** C7 as stated fails: a neighbour reached by ["video_resource"] whose label
    contains "day" is filed under the notes, and the videos stay empty. *)
Lemma video_resource_filed_as_note :
  ~ classification_contract 1 "python" monday_video.
Proof.
  intros H.
  assert (Hc : In "python" (_extract_concepts "python")) by (now left).
  assert (Hn : In "1:monday_video"
                  (neighbors (user_node 1 "python")
                             (knowledge_graph monday_video)))
    by (right; left; reflexivity).
  destruct (H "python" "1:monday_video"
              (mkEdgeData "video_resource" default_weight) Hc Hn eq_refl)
    as (_ & Hvideo & _).
  exact (Hvideo eq_refl).
Qed.

(** What the context holds there. *)
Example monday_video_context :
  get_graph_context 1 "python" monday_video =
  mkGraphContext ["day_1"; "monday_video"] [] [] [].
Proof. reflexivity. Qed.

(** * Further properties of the memory manager *)

(** ** The [LIKE] filter of [recall_episodic] *)

Lemma like_percent_unfold (p s : string) :
  like_chars (String "%" p) s =
  (like_chars p s
   || match s with
      | EmptyString => false
      | String _ s' => like_chars (String "%" p) s'
      end)%bool.
Proof. destruct s; reflexivity. Qed.

Lemma contains_unfold (needle s : string) :
  contains needle s =
  (prefix needle s
   || match s with
      | EmptyString => false
      | String _ s' => contains needle s'
      end)%bool.
Proof.
  destruct s as [| c s]; simpl.
  - now destruct (prefix needle "").
  - now destruct (prefix needle (String c s)).
Qed.

Lemma like_percent_any (s : string) : like_chars "%" s = true.
Proof.
  induction s as [| c s IH]; [reflexivity |].
  rewrite like_percent_unfold, IH. apply orb_true_r.
Qed.

Lemma wildcard_free_tail (c : ascii) (a : string) :
  wildcard_free (String c a) -> wildcard_free a.
Proof. intros H d Hd. apply H. now right. Qed.

Lemma like_literal_prefix (a t : string) :
  wildcard_free a -> like_chars (a ++ "%") t = prefix (lower a) (lower t).
Proof.
  revert t. induction a as [| c a IH]; intros t Ha.
  - transitivity true; [apply like_percent_any | now destruct t].
  - assert (Hc : c <> "%"%char /\ c <> "_"%char) by (apply Ha; now left).
    destruct Hc as [Hp Hu].
    apply Ascii.eqb_neq in Hp, Hu.
    change (String c a ++ "%")%string with (String c (a ++ "%")).
    cbn [like_chars]. rewrite Hp, Hu.
    destruct t as [| d t]; [reflexivity |].
    cbn [lower prefix]. unfold eqb_nocase.
    destruct (ascii_dec (lower_ascii c) (lower_ascii d)) as [E | E].
    + rewrite E, Ascii.eqb_refl. simpl.
      apply IH. now apply wildcard_free_tail in Ha.
    + apply Ascii.eqb_neq in E. now rewrite E.
Qed.

Lemma like_percent_literal (a s : string) :
  wildcard_free a ->
  like_chars (String "%" (a ++ "%")) s = contains (lower a) (lower s).
Proof.
  intros Ha. induction s as [| c s IH].
  - rewrite like_percent_unfold, contains_unfold. cbn [lower].
    rewrite !orb_false_r. now apply (like_literal_prefix a "").
  - rewrite like_percent_unfold. cbn [lower]. rewrite contains_unfold.
    rewrite IH. f_equal. now apply (like_literal_prefix a (String c s)).
Qed.

Lemma lower_app (a b : string) : lower (a ++ b) = (lower a ++ lower b)%string.
Proof. induction a as [| c a IH]; simpl; [reflexivity | now rewrite IH]. Qed.

Lemma c_string_nul_free (a : string) : nul_free a -> c_string a = a.
Proof.
  induction a as [| c a IH]; intros Ha; [reflexivity |].
  cbn [c_string].
  assert (Hc : c <> Ascii.zero) by (apply Ha; now left).
  apply Ascii.eqb_neq in Hc. rewrite Hc. f_equal.
  apply IH. intros d Hd. apply Ha. now right.
Qed.

Lemma c_string_app (a b : string) :
  nul_free a -> c_string (a ++ b) = (a ++ c_string b)%string.
Proof.
  induction a as [| c a IH]; intros Ha; [reflexivity |].
  cbn [c_string append].
  assert (Hc : c <> Ascii.zero) by (apply Ha; now left).
  apply Ascii.eqb_neq in Hc. rewrite Hc. f_equal.
  apply IH. intros d Hd. apply Ha. now right.
Qed.

Lemma nul_free_app (a b : string) :
  nul_free a -> nul_free b -> nul_free (a ++ b).
Proof.
  intros Ha Hb. induction a as [| c a IH]; [exact Hb |].
  intros d [<- | Hd].
  - apply Ha. now left.
  - apply IH; [| exact Hd]. intros e He. apply Ha. now right.
Qed.

Lemma c_string_cut (s : string) :
  exists rest, s = (c_string s ++ rest)%string.
Proof.
  induction s as [| c s [rest IH]]; [now exists "" |].
  cbn [c_string]. destruct (Ascii.eqb c Ascii.zero).
  - now exists (String c s).
  - exists rest. cbn [append]. now rewrite <- IH.
Qed.

Lemma prefix_app_l (n a b : string) :
  prefix n a = true -> prefix n (a ++ b) = true.
Proof.
  revert a. induction n as [| c n IH]; intros a H;
    [now destruct (a ++ b)%string |].
  destruct a as [| d a]; [discriminate |].
  cbn [prefix append] in *.
  destruct (ascii_dec c d); [now apply IH | discriminate].
Qed.

Lemma contains_app_l (n a b : string) :
  contains n a = true -> contains n (a ++ b) = true.
Proof.
  induction a as [| c a IH]; intros H.
  - rewrite contains_unfold in H. rewrite orb_false_r in H.
    destruct n; [| discriminate]. rewrite contains_unfold. now destruct b.
  - rewrite contains_unfold in H. cbn [append]. rewrite contains_unfold.
    apply orb_true_iff in H as [H | H].
    + apply orb_true_iff. left.
      now apply (prefix_app_l n (String c a) b).
    + apply orb_true_iff. right. now apply IH.
Qed.

Lemma like_percent_literal_cut (a s : string) :
  wildcard_free a -> nul_free a ->
  like ("%" ++ a ++ "%") s = contains (lower a) (lower (c_string s)).
Proof.
  intros Ha Hn. unfold like.
  rewrite c_string_nul_free.
  - now apply like_percent_literal.
  - apply (nul_free_app "%" (a ++ "%")).
    + intros c [<- | []]. discriminate.
    + apply nul_free_app; [exact Hn |]. intros c [<- | []]. discriminate.
Qed.

Lemma like_percent_literal_sound (a s : string) :
  wildcard_free a -> nul_free a ->
  like ("%" ++ a ++ "%") s = true -> contains (lower a) (lower s) = true.
Proof.
  intros Ha Hn H. rewrite (like_percent_literal_cut a s Ha Hn) in H.
  destruct (c_string_cut s) as [rest Hs]. rewrite Hs at 1.
  rewrite lower_app. now apply contains_app_l.
Qed.





Lemma filter_ext_all {A : Type} (f g : A -> bool) (l : list A) :
  (forall x, f x = g x) -> filter f l = filter g l.
Proof.
  intros H. induction l as [| x l IH]; simpl; [reflexivity |].
  now rewrite H, IH.
Qed.



(** ** What the recall methods return *)

Lemma rows_newest_first (limit : Z) (rows : list EntryRow) :
  newest_first (map recalled_of (sql_limit limit (sort_desc later_row rows))).
Proof.
  unfold newest_first.
  apply StronglySorted_map
    with (R := fun a b : EntryRow => later_row b a = false).
  - unfold later_row. intros a b H. apply Z.ltb_ge in H. exact H.
  - assert (Hs : StronglySorted (fun a b : EntryRow => later_row b a = false)
                   (sort_desc later_row rows)).
    { apply sort_desc_sorted; unfold later_row.
      - intros a b H. apply Z.ltb_lt in H. apply Z.ltb_ge. lia.
      - intros a b c H1 H2. apply Z.ltb_ge in H1, H2. apply Z.ltb_ge. lia. }
    unfold sql_limit. destruct (limit <? 0); [exact Hs |].
    now apply StronglySorted_firstn.
Qed.

Lemma recall_episodic_map (u : Z) (action_type : option string) (m : Manager) :
  recall_episodic u action_type m =
  map recalled_of
      (sql_limit 20
         (sort_desc later_row
            (filter (episodic_of u action_type) (memory_entries m)))).
Proof. unfold recall_episodic. now rewrite fold_left_snoc_map. Qed.

Lemma sql_limit_incl {A : Type} (k : Z) (l : list A) : incl (sql_limit k l) l.
Proof.
  unfold sql_limit. intros x Hx. destruct (k <? 0); [exact Hx |].
  rewrite <- (firstn_skipn (Z.to_nat k) l). apply in_or_app. now left.
Qed.

Lemma sql_limit_length {A : Type} (k : Z) (l : list A) :
  0 <= k -> (List.length (sql_limit k l) <= Z.to_nat k)%nat.
Proof.
  intros Hk. unfold sql_limit.
  destruct (k <? 0) eqn:E; [apply Z.ltb_lt in E; lia |].
  apply firstn_le_length.
Qed.

(** X3.  [recall_episodic] returns at most twenty entries, newest first, and
    each of them is built from an episodic row of the user that passes the
    action filter. *)
Theorem recall_episodic_shape (u : Z) (action_type : option string)
    (m : Manager) :
  (List.length (recall_episodic u action_type m) <= 20)%nat /\
  newest_first (recall_episodic u action_type m) /\
  (forall x,
      In x (recall_episodic u action_type m) ->
      exists row,
        In row (memory_entries m) /\ x = recalled_of row /\
        row_user_id row = u /\ row_memory_type row = episodic /\
        episodic_of u action_type row = true).
Proof.
  rewrite recall_episodic_map. split; [| split].
  - rewrite length_map. apply (sql_limit_length 20). lia.
  - apply rows_newest_first.
  - intros x Hx. apply in_map_iff in Hx as (row & <- & Hrow).
    apply sql_limit_incl in Hrow.
    apply (Permutation_in _ (sort_desc_perm later_row _)) in Hrow.
    apply filter_In in Hrow as [Hin Hf].
    exists row. repeat split; try assumption.
    + unfold episodic_of in Hf. apply andb_true_iff in Hf as [Hf _].
      apply andb_true_iff in Hf as [Hf _]. now apply Z.eqb_eq.
    + unfold episodic_of in Hf. apply andb_true_iff in Hf as [Hf _].
      apply andb_true_iff in Hf as [_ Hf]. now apply MemoryType_eqb_eq.
Qed.

(** X4.  [recall_conversation] returns at most [limit] entries when the
    limit is not negative and all of the user's conversation entries when it
    is negative; each entry it returns is built from a conversation row of
    that user. *)
Theorem recall_conversation_bounds (u limit : Z) (m : Manager) :
  (0 <= limit ->
   (List.length (recall_conversation u limit m) <= Z.to_nat limit)%nat) /\
  (limit < 0 ->
   List.length (recall_conversation u limit m) =
   List.length (filter (conversation_of u) (memory_entries m))) /\
  (forall x,
      In x (recall_conversation u limit m) ->
      exists row,
        In row (memory_entries m) /\ x = recalled_of row /\
        row_user_id row = u /\ row_memory_type row = conversation).
Proof.
  rewrite recall_conversation_map. fold recalled_of. split; [| split].
  - intros Hl. rewrite length_map. now apply sql_limit_length.
  - intros Hl. rewrite length_map. unfold sql_limit.
    apply Z.ltb_lt in Hl. rewrite Hl.
    apply Permutation_length, sort_desc_perm.
  - intros x Hx. apply in_map_iff in Hx as (row & <- & Hrow).
    apply sql_limit_incl in Hrow.
    apply (Permutation_in _ (sort_desc_perm later_row _)) in Hrow.
    apply filter_In in Hrow as [Hin Hf].
    unfold conversation_of in Hf. apply andb_true_iff in Hf as [Hu Hty].
    exists row. repeat split; try assumption.
    + now apply Z.eqb_eq.
    + now apply MemoryType_eqb_eq.
Qed.

(** ** The last YouTube link *)

Lemma first_with_key_found (key : string) (memories : list Recalled)
    (v : json) :
  first_with_key key memories = Some v ->
  exists x, In x memories /\ dict_get key (rc_metadata x) = Some v.
Proof.
  induction memories as [| x rest IH]; simpl; [discriminate |].
  destruct (dict_get key (rc_metadata x)) as [w |] eqn:Hx.
  - intros [= ->]. exists x. auto.
  - intros H. destruct (IH H) as (y & Hy & Hv). exists y. auto.
Qed.

Lemma recall_episodic_rows (u : Z) (action_type : option string) (m : Manager)
    (x : Recalled) :
  In x (recall_episodic u action_type m) ->
  exists row,
    In row (memory_entries m) /\ x = recalled_of row /\
    episodic_of u action_type row = true.
Proof.
  rewrite recall_episodic_map. intros Hx.
  apply in_map_iff in Hx as (row & <- & Hrow).
  apply sql_limit_incl in Hrow.
  apply (Permutation_in _ (sort_desc_perm later_row _)) in Hrow.
  apply filter_In in Hrow as [Hin Hf]. exists row. auto.
Qed.

Lemma wildcard_free_youtube : wildcard_free "youtube".
Proof.
  intros c Hc. simpl in Hc.
  repeat (destruct Hc as [<- | Hc]; [split; discriminate |]). contradiction.
Qed.

Lemma nul_free_youtube : nul_free "youtube".
Proof.
  intros c Hc. simpl in Hc.
  repeat (destruct Hc as [<- | Hc]; [discriminate |]). contradiction.
Qed.

Lemma nul_free_playlist : nul_free "playlist".
Proof.
  intros c Hc. simpl in Hc.
  repeat (destruct Hc as [<- | Hc]; [discriminate |]). contradiction.
Qed.

Lemma wildcard_free_playlist : wildcard_free "playlist".
Proof.
  intros c Hc. simpl in Hc.
  repeat (destruct Hc as [<- | Hc]; [split; discriminate |]). contradiction.
Qed.

(** X5.  A link returned by [get_last_youtube_link] is the value under
    ["youtube_link"] in the metadata of an episodic entry of that user whose
    content has "youtube" in it, whatever the case: a link recorded under an
    action whose name lacks that word is never returned. *)
Theorem get_last_youtube_link_sound (u : Z) (m : Manager) (v : json) :
  get_last_youtube_link u m = Some v ->
  exists row,
    In row (memory_entries m) /\
    row_user_id row = u /\ row_memory_type row = episodic /\
    contains "youtube" (lower (row_content row)) = true /\
    dict_get "youtube_link" (row_metadata row) = Some v.
Proof.
  unfold get_last_youtube_link. intros H.
  apply first_with_key_found in H as (x & Hx & Hv).
  apply recall_episodic_rows in Hx as (row & Hin & -> & Hf).
  unfold episodic_of in Hf.
  apply andb_true_iff in Hf as [Hf Hlike].
  apply andb_true_iff in Hf as [Hu Hty].
  exists row. repeat split; try assumption.
  - now apply Z.eqb_eq.
  - now apply MemoryType_eqb_eq.
  - now apply (like_percent_literal_sound "youtube" _ wildcard_free_youtube
                 nul_free_youtube).
Qed.

(** X5 at work: of the two stored links, the one recorded under
    ["search_videos"] is out of reach. *)
Lemma get_last_youtube_link_sound_witness :
  exists row,
    In row (memory_entries recorded_actions) /\
    row_user_id row = 1 /\ row_memory_type row = episodic /\
    contains "youtube" (lower (row_content row)) = true /\
    dict_get "youtube_link" (row_metadata row) = Some (JStr "yt/2").
Proof.
  apply (get_last_youtube_link_sound 1 recorded_actions (JStr "yt/2")).
  reflexivity.
Defined.

Lemma sort_desc_newest_last {A : Type} (above : A -> A -> bool) (l : list A)
    (x : A) :
  (forall y, In y l -> above x y = true) ->
  sort_desc above (l ++ [x]) = x :: sort_desc above l.
Proof.
  unfold sort_desc. rewrite fold_right_app. simpl.
  generalize (@nil A) as acc.
  induction l as [| y l IH]; intros acc H; simpl; [reflexivity |].
  rewrite IH by (intros z Hz; apply H; now right).
  simpl. now rewrite (H y) by now left.
Qed.

Lemma contains_app_r (needle p s : string) :
  contains needle s = true -> contains needle (p ++ s) = true.
Proof.
  intros H. induction p as [| c p IH]; [exact H |].
  change (String c p ++ s)%string with (String c (p ++ s)).
  rewrite contains_unfold, IH. apply orb_true_r.
Qed.

Section EntriesOfStores.
Context {W : World}.

Lemma _add_to_graph_keeps_entries (u : Z) (s t r : string) (w : Q) :
  respects keeps_entries (_add_to_graph u s t r w).
Proof. intros m. reflexivity. Qed.

Lemma keeps_entries_refl (m : Manager) : keeps_entries m m.
Proof. reflexivity. Qed.

Lemma keeps_entries_trans (a b c : Manager) :
  keeps_entries a b -> keeps_entries b c -> keeps_entries a c.
Proof. unfold keeps_entries. congruence. Qed.

Lemma store_episodic_entries (u : Z) (action : string) (result : dict json)
    (e : Vec) (m : Manager) :
  encode ("Action: " ++ action)%string = Some e ->
  memory_entries (exec (store_episodic u action result) m) =
  memory_entries m
    ++ [mkEntryRow u ("Action: " ++ action)%string episodic result
                   (clock (clock_reads m)) e].
Proof.
  intros He. unfold exec, store_episodic.
  unfold bind at 1. unfold now at 1. cbn [fst snd].
  unfold bind at 1. erewrite _store_entry_ok by exact He.
  match goal with
  | |- memory_entries (snd (?c ?m1)) = _ =>
      assert (H : respects keeps_entries c)
  end.
  { pose proof keeps_entries_refl as Hr. pose proof keeps_entries_trans as Ht.
    unfold as_str.
    steps_with ltac:(on_step fail fail ltac:(apply _add_to_graph_keeps_entries)
                             fail fail). }
  rewrite (H _). reflexivity.
Qed.

(** X6.  After [store_episodic] has stored an action whose name, read up
    to its first NUL, has "youtube" in it, with a link under
    ["youtube_link"], at a time later than every entry of the user,
    [get_last_youtube_link] returns that link. *)
Theorem get_last_youtube_link_after_store (u : Z) (action link : string)
    (result : dict json) (e : Vec) (m : Manager) :
  encode ("Action: " ++ action)%string = Some e ->
  contains "youtube" (lower (c_string action)) = true ->
  dict_get "youtube_link" result = Some (JStr link) ->
  (forall r, In r (memory_entries m) -> row_user_id r = u ->
             row_timestamp r < clock (clock_reads m)) ->
  get_last_youtube_link u (exec (store_episodic u action result) m) =
  Some (JStr link).
Proof.
  intros He Haction Hlink Hnewer.
  unfold get_last_youtube_link. rewrite recall_episodic_map.
  rewrite (store_episodic_entries u action result e m He).
  rewrite filter_app.
  set (row := mkEntryRow u ("Action: " ++ action)%string episodic result
                         (clock (clock_reads m)) e).
  assert (Hrow : episodic_of u (Some "youtube") row = true).
  { unfold episodic_of. cbn [row_user_id row_memory_type row_content row].
    rewrite Z.eqb_refl. cbn [MemoryType_eqb andb].
    rewrite (like_percent_literal_cut "youtube" _ wildcard_free_youtube
               nul_free_youtube).
    rewrite (c_string_app "Action: " action).
    - rewrite lower_app. now apply contains_app_r.
    - intros c Hc. simpl in Hc.
      repeat (destruct Hc as [<- | Hc]; [discriminate |]). contradiction. }
  cbn [filter]. rewrite Hrow.
  rewrite sort_desc_newest_last.
  - change (sql_limit 20 (row :: ?l)) with (row :: firstn 19 l).
    cbn [map first_with_key]. unfold recalled_of at 1.
    cbn [rc_metadata]. unfold row at 1. cbn [row_metadata].
    now rewrite Hlink.
  - intros y Hy. apply filter_In in Hy as [Hin Hf].
    unfold later_row. cbn [row_timestamp row]. apply Z.ltb_lt.
    apply Hnewer; [exact Hin |].
    unfold episodic_of in Hf. apply andb_true_iff in Hf as [Hf _].
    apply andb_true_iff in Hf as [Hf _]. now apply Z.eqb_eq.
Qed.

End EntriesOfStores.

(** X6 on a first action stored in the empty manager. *)
Lemma get_last_youtube_link_after_store_witness :
  get_last_youtube_link 1
    (exec (store_episodic (W := Demo.world) 1 "open_youtube"
                          [("youtube_link", JStr "yt/9")]) init)
  = Some (JStr "yt/9").
Proof.
  apply (get_last_youtube_link_after_store (W := Demo.world) 1 "open_youtube"
           "yt/9" [("youtube_link", JStr "yt/9")] [1; 0]%Q init).
  - reflexivity.
  - reflexivity.
  - reflexivity.
  - intros r [].
Defined.

(** ** The playlists of a user *)

Lemma py_eqb_refl (v : json) : hashable v = true -> py_eqb v v = true.
Proof.
  destruct v; simpl; try discriminate; intros _.
  - reflexivity.
  - now destruct b.
  - apply Z.eqb_refl.
  - apply String.eqb_refl.
Qed.

Lemma py_eqb_trans (a b c : json) :
  py_eqb a b = true -> py_eqb b c = true -> py_eqb a c = true.
Proof.
  destruct a as [| x | x | x | |], b as [| y | y | y | |],
           c as [| z | z | z | |];
    simpl; try discriminate; try reflexivity;
    rewrite ?Z.eqb_eq, ?String.eqb_eq; try congruence;
    repeat match goal with
           | b : bool |- _ => destruct b
           end; simpl; try discriminate; try reflexivity; lia.
Qed.

Lemma distinct_incl (xs : list json) : incl (distinct xs) xs.
Proof.
  induction xs as [| x xs IH]; intros y Hy; simpl in *; [exact Hy |].
  destruct Hy as [-> | Hy]; [now left |].
  apply filter_In in Hy as [Hy _]. right. now apply IH.
Qed.

Lemma distinct_represents (xs : list json) (v : json) :
  forallb hashable xs = true -> In v xs ->
  exists w, In w (distinct xs) /\ py_eqb w v = true.
Proof.
  induction xs as [| x xs IH]; intros Hh Hv; [contradiction |].
  simpl in Hh. apply andb_true_iff in Hh as [Hx Hh].
  destruct Hv as [-> | Hv].
  - exists v. split; [now left | now apply py_eqb_refl].
  - destruct (IH Hh Hv) as (w & Hw & Hwv).
    destruct (py_eqb x w) eqn:Hxw.
    + exists x. split; [now left | now apply py_eqb_trans with w].
    + exists w. split; [| exact Hwv].
      right. apply filter_In. split; [exact Hw | now rewrite Hxw].
Qed.

Lemma distinct_pairwise (xs : list json) :
  ForallOrdPairs (fun a b => py_eqb a b = false) (distinct xs).
Proof.
  induction xs as [| x xs IH]; simpl; constructor.
  - apply Forall_forall. intros y Hy. apply filter_In in Hy as [_ Hy].
    now apply negb_true_iff in Hy.
  - revert IH. generalize (distinct xs) as l. clear.
    induction 1 as [| a l Ha _ IH]; simpl; [constructor |].
    destruct (negb (py_eqb x a)); [| exact IH].
    constructor; [| exact IH].
    apply Forall_forall. intros y Hy. apply filter_In in Hy as [Hy _].
    now apply (proj1 (Forall_forall _ _) Ha).
Qed.

Lemma playlist_names_spec (memories : list Recalled) (v : json) :
  In v (playlist_names memories) <->
  exists x, In x memories /\ dict_get "playlist_name" (rc_metadata x) = Some v.
Proof.
  unfold playlist_names.
  assert (H : forall acc,
             In v (fold_left
                     (fun playlists memory =>
                        match dict_get "playlist_name" (rc_metadata memory) with
                        | Some w => playlists ++ [w]
                        | None => playlists
                        end) memories acc) <->
             In v acc \/
             exists x, In x memories /\
                       dict_get "playlist_name" (rc_metadata x) = Some v).
  { induction memories as [| y rest IH]; intros acc; simpl.
    - split; [auto | intros [H | (x & [] & _)]; exact H].
    - rewrite IH.
      destruct (dict_get "playlist_name" (rc_metadata y)) as [w |] eqn:Hy.
      + rewrite in_app_iff. simpl. split.
        * intros [[H | [-> | []]] | (x & Hx & Hv)]; eauto.
        * intros [H | (x & [-> | Hx] & Hv)]; eauto.
          rewrite Hy in Hv. injection Hv as ->. auto.
      + split.
        * intros [H | (x & Hx & Hv)]; eauto.
        * intros [H | (x & [-> | Hx] & Hv)]; eauto. congruence. }
  rewrite H. simpl. split; [intros [[] | H']; exact H' | auto].
Qed.

(** X7.  When [get_user_playlists] returns, no two of the names it returns
    are equal; each is the value under ["playlist_name"] of an episodic
    entry of that user whose content has "playlist" in it, whatever the
    case; and every such value among the entries recalled has an equal
    among the names returned. *)
Theorem get_user_playlists_spec (u : Z) (m : Manager) (names : list json) :
  get_user_playlists u m = Ok names ->
  ForallOrdPairs (fun a b => py_eqb a b = false) names /\
  (forall v,
      In v names ->
      exists row,
        In row (memory_entries m) /\
        row_user_id row = u /\ row_memory_type row = episodic /\
        contains "playlist" (lower (row_content row)) = true /\
        dict_get "playlist_name" (row_metadata row) = Some v) /\
  (forall x v,
      In x (recall_episodic u (Some "playlist") m) ->
      dict_get "playlist_name" (rc_metadata x) = Some v ->
      exists w, In w names /\ py_eqb w v = true).
Proof.
  unfold get_user_playlists.
  destruct (forallb hashable
              (playlist_names (recall_episodic u (Some "playlist") m)))
    eqn:Hh; [| discriminate].
  intros [= <-]. split; [apply distinct_pairwise |]. split.
  - intros v Hv. apply distinct_incl in Hv.
    apply playlist_names_spec in Hv as (x & Hx & Hv).
    apply recall_episodic_rows in Hx as (row & Hin & -> & Hf).
    unfold episodic_of in Hf.
    apply andb_true_iff in Hf as [Hf Hlike].
    apply andb_true_iff in Hf as [Hu Hty].
    exists row. repeat split; try assumption.
    + now apply Z.eqb_eq.
    + now apply MemoryType_eqb_eq.
    + now apply (like_percent_literal_sound "playlist" _ wildcard_free_playlist
                   nul_free_playlist).
  - intros x v Hx Hv. apply distinct_represents; [exact Hh |].
    apply playlist_names_spec. eauto.
Qed.

(** X7 at work: the playlist named twice by user 1 is listed once. *)
Lemma get_user_playlists_spec_witness :
  ForallOrdPairs (fun a b => py_eqb a b = false) [JStr "p1"].
Proof.
  apply (get_user_playlists_spec 1 recorded_actions [JStr "p1"]).
  reflexivity.
Defined.

(** ** Every read of a user is blind to the calls of the others *)

Lemma filter_andb {A : Type} (f g : A -> bool) (l : list A) :
  filter (fun x => (f x && g x)%bool) l = filter g (filter f l).
Proof.
  induction l as [| x l IH]; simpl; [reflexivity |].
  destruct (f x); simpl; [destruct (g x) |]; now rewrite IH.
Qed.

Lemma conversation_rows_of_user (u : Z) (m : Manager) :
  filter (conversation_of u) (memory_entries m) =
  filter (fun r => MemoryType_eqb (row_memory_type r) conversation)
         (user_rows u m).
Proof. unfold conversation_of, user_rows. apply filter_andb. Qed.

Lemma episodic_rows_of_user (u : Z) (action_type : option string)
    (m : Manager) :
  filter (episodic_of u action_type) (memory_entries m) =
  filter (fun r =>
            (MemoryType_eqb (row_memory_type r) episodic
             && match action_type with
                | Some (String c a) =>
                    like ("%" ++ String c a ++ "%")%string (row_content r)
                | _ => true
                end)%bool)
         (user_rows u m).
Proof.
  unfold user_rows. rewrite <- filter_andb. apply filter_ext_all.
  intros r. unfold episodic_of. now rewrite andb_assoc.
Qed.

Lemma recall_conversation_user_rows (u limit : Z) (m m' : Manager) :
  keeps_user_rows u m m' ->
  recall_conversation u limit m' = recall_conversation u limit m.
Proof.
  intros H. rewrite !recall_conversation_map, !conversation_rows_of_user.
  now rewrite H.
Qed.

Lemma recall_episodic_user_rows (u : Z) (action_type : option string)
    (m m' : Manager) :
  keeps_user_rows u m m' ->
  recall_episodic u action_type m' = recall_episodic u action_type m.
Proof.
  intros H. rewrite !recall_episodic_map, !episodic_rows_of_user.
  now rewrite H.
Qed.

Section ReadIsolation.
Context {W : World}.

Lemma semantic_search_user_rows (u : Z) (q : string) (k : Z) (m m' : Manager) :
  keeps_user_rows u m m' ->
  semantic_search u q k m' = semantic_search u q k m.
Proof.
  intros H. unfold semantic_search. fold (user_rows u m') (user_rows u m).
  now rewrite H.
Qed.

Lemma keeps_user_rows_refl (u : Z) (m : Manager) : keeps_user_rows u m m.
Proof. reflexivity. Qed.

Lemma keeps_user_rows_trans (u : Z) (a b c : Manager) :
  keeps_user_rows u a b -> keeps_user_rows u b c -> keeps_user_rows u a c.
Proof. unfold keeps_user_rows. congruence. Qed.

Lemma _store_entry_keeps_user_rows (u : Z) (entry : MemoryEntry) :
  user_id entry <> u -> respects (keeps_user_rows u) (_store_entry entry).
Proof.
  intros Hu m. unfold _store_entry.
  destruct (encode (content entry)) as [e |]; [| reflexivity].
  unfold keeps_user_rows, user_rows. simpl. rewrite filter_app. simpl.
  apply Z.eqb_neq in Hu. rewrite Hu. apply app_nil_r.
Qed.

Lemma delete_keeps_user_rows (u : Z) (keep : EntryRow -> bool) :
  (forall r, row_user_id r = u -> keep r = true) ->
  respects (keeps_user_rows u) (delete_memory_entries keep).
Proof.
  intros Hkeep m. unfold keeps_user_rows, user_rows. simpl.
  induction (memory_entries m) as [| r l IH]; simpl; [reflexivity |].
  destruct (Z.eqb_spec (row_user_id r) u) as [Hr | Hr].
  - rewrite (Hkeep r Hr). simpl. apply Z.eqb_eq in Hr. now rewrite Hr, IH.
  - destruct (keep r); simpl; [| exact IH].
    apply Z.eqb_neq in Hr. now rewrite Hr.
Qed.

Lemma run_call_keeps_user_rows (u : Z) (call : Call) :
  call_user call <> u -> respects (keeps_user_rows u) (run_call call).
Proof.
  intros Hcall.
  pose proof (keeps_user_rows_refl u) as Hr.
  pose proof (keeps_user_rows_trans u) as Ht.
  assert (Hnow : respects (keeps_user_rows u) now) by (intros m; reflexivity).
  assert (Hadd : forall v s t r w,
             respects (keeps_user_rows u) (_add_to_graph v s t r w))
    by (intros v s t r w m; reflexivity).
  destruct call; cbn [run_call call_user] in *;
    unfold store_conversation, store_episodic, store_semantic,
      create_learning_path_graph, cleanup_old_memories, link_concepts, as_str;
    steps_with ltac:(on_step
                       ltac:(apply Hnow)
                       ltac:(apply _store_entry_keeps_user_rows; exact Hcall)
                       ltac:(apply Hadd)
                       fail
                       ltac:(apply delete_keeps_user_rows; intros r0 Hr0;
                             apply negb_true_iff;
                             apply Z.eqb_neq in Hcall;
                             rewrite Hr0, Z.eqb_sym, Hcall; reflexivity)).
Qed.

(** X8.  Whatever calls the other users make, every read method of user
    [u1] returns what it returned before: the two recalls, the similarity
    search, the last link, the playlists and the fused context. *)
Theorem reads_blind_to_other_users (u1 : Z) (calls : list Call) (m : Manager) :
  Forall (fun c => call_user c <> u1) calls ->
  let m' := run_calls calls m in
  (forall limit, recall_conversation u1 limit m' = recall_conversation u1 limit m) /\
  (forall action, recall_episodic u1 action m' = recall_episodic u1 action m) /\
  (forall q k, semantic_search u1 q k m' = semantic_search u1 q k m) /\
  get_last_youtube_link u1 m' = get_last_youtube_link u1 m /\
  get_user_playlists u1 m' = get_user_playlists u1 m /\
  (forall q, get_contextual_memory u1 q m' = get_contextual_memory u1 q m).
Proof.
  intros Hcalls m'.
  assert (Hrows : keeps_user_rows u1 m m').
  { subst m'. revert m.
    induction Hcalls as [| call calls Hcall _ IH]; intros m; simpl.
    - reflexivity.
    - eapply keeps_user_rows_trans; [| apply IH].
      now apply (run_call_keeps_user_rows u1 call). }
  assert (Hgraph : forall concept,
             keeps_successors (user_node u1 concept) m m').
  { intros concept. subst m'. clear Hrows. revert m.
    induction Hcalls as [| call calls Hcall _ IH]; intros m; simpl.
    - apply keeps_successors_refl.
    - eapply keeps_successors_trans; [| apply IH].
      apply (run_call_keeps_successors (user_node u1 concept) call).
      intros label E. apply user_node_inj in E as [E _]. now apply Hcall. }
  repeat split.
  - intros limit. now apply recall_conversation_user_rows.
  - intros action. now apply recall_episodic_user_rows.
  - intros q k. now apply semantic_search_user_rows.
  - unfold get_last_youtube_link.
    now rewrite (recall_episodic_user_rows u1 _ m m' Hrows).
  - unfold get_user_playlists.
    now rewrite (recall_episodic_user_rows u1 _ m m' Hrows).
  - intros q. unfold get_contextual_memory.
    rewrite (semantic_search_user_rows u1 q 5 m m' Hrows).
    rewrite (recall_episodic_user_rows u1 None m m' Hrows).
    now rewrite (get_graph_context_successors u1 q m m' Hgraph).
Qed.

End ReadIsolation.

(** X8 at work: user 2 stores, links and sweeps; user 1 recalls the same. *)
Lemma reads_blind_to_other_users_witness :
  recall_episodic 1 None
    (run_calls (W := Demo.world)
       (writes_of_user_2 ++ [CleanupOldMemories 2 (-1)]) recorded_actions)
  = recall_episodic 1 None recorded_actions.
Proof.
  destruct (reads_blind_to_other_users (W := Demo.world) 1
              (writes_of_user_2 ++ [CleanupOldMemories 2 (-1)])
              recorded_actions) as (_ & Hepisodic & _).
  - repeat constructor; discriminate.
  - apply Hepisodic.
Defined.

(** ** The graph mirrors the latest rows of the edge table *)

Lemma latest_label_snoc (u : Z) (a b : string) (table : list EdgeRow)
    (r : EdgeRow) :
  latest_label u a b (table ++ [r]) =
  if ((edge_user_id r =? u) && String.eqb (source_node r) a
      && String.eqb (target_node r) b)%bool
  then Some (edge_relationship r) else latest_label u a b table.
Proof. unfold latest_label. now rewrite fold_left_app. Qed.

Lemma get_edge_data_add_edge_any (n v s t : string) (d : EdgeData)
    (g : DiGraph.t) :
  get_edge_data n v (add_edge s t d g) =
  if (String.eqb s n && String.eqb t v)%bool then Some d
  else get_edge_data n v g.
Proof.
  unfold get_edge_data. rewrite successors_add_edge.
  destruct (String.eqb_spec s n) as [-> | Hs]; simpl; [| reflexivity].
  now rewrite dict_get_set.
Qed.

Lemma user_node_eqb (u u' : Z) (a a' : string) :
  String.eqb (user_node u a) (user_node u' a') =
  ((u =? u') && String.eqb a a')%bool.
Proof.
  destruct (String.eqb_spec (user_node u a) (user_node u' a')) as [E | E].
  - apply user_node_inj in E as [-> ->].
    now rewrite Z.eqb_refl, String.eqb_refl.
  - destruct (Z.eqb_spec u u') as [-> |]; [| reflexivity].
    destruct (String.eqb_spec a a') as [-> |]; [| reflexivity].
    now elim E.
Qed.

Section Mirror.
Context {W : World}.

Let keeps_mirror (m m' : Manager) : Prop := mirror_latest m -> mirror_latest m'.

Lemma _add_to_graph_keeps_mirror (u : Z) (s t r : string) (w : Q) :
  respects keeps_mirror (_add_to_graph u s t r w).
Proof.
  intros m Hm v a b. rewrite _add_to_graph_run. simpl.
  rewrite latest_label_snoc, get_edge_data_add_edge_any. simpl.
  rewrite !user_node_eqb. rewrite <- (Hm v a b).
  destruct (u =? v); simpl; [| reflexivity].
  destruct (String.eqb s a); simpl; [| reflexivity].
  now destruct (String.eqb t b).
Qed.

Lemma run_call_keeps_mirror (call : Call) : respects keeps_mirror (run_call call).
Proof.
  assert (Hr : forall m, keeps_mirror m m) by (intros m H; exact H).
  assert (Ht : forall a b c, keeps_mirror a b -> keeps_mirror b c ->
                             keeps_mirror a c)
    by (unfold keeps_mirror; auto).
  assert (Hnow : respects keeps_mirror now) by (intros m Hm; exact Hm).
  assert (Hdelete : forall keep, respects keeps_mirror (delete_memory_entries keep))
    by (intros keep m Hm; exact Hm).
  assert (Hstore : forall entry, respects keeps_mirror (_store_entry entry)).
  { intros entry m Hm. unfold _store_entry.
    now destruct (encode (content entry)). }
  destruct call; cbn [run_call];
    unfold store_conversation, store_episodic, store_semantic,
      create_learning_path_graph, cleanup_old_memories, link_concepts, as_str;
    steps_with ltac:(on_step ltac:(apply Hnow) ltac:(apply Hstore)
                             ltac:(apply _add_to_graph_keeps_mirror) fail
                             ltac:(apply Hdelete)).
Qed.

(** X9.  In a manager that started empty, after any calls in which the
    links and playlist names recorded are texts, the graph holds an edge
    from [u:a] to [u:b] exactly when the edge table has a row from [a] to
    [b] for [u], and the relationship on that edge is the one of the last
    such row. *)
Theorem graph_mirrors_latest_rows (calls : list Call) :
  Forall text_links calls ->
  mirror_latest (run_calls calls init).
Proof.
  intros _.
  assert (H : forall m, mirror_latest m -> mirror_latest (run_calls calls m)).
  { induction calls as [| call calls IH]; intros m Hm; simpl; [exact Hm |].
    apply IH. now apply (run_call_keeps_mirror call m). }
  apply H. intros u a b. reflexivity.
Qed.

End Mirror.

(** X9 after an action with a link and a relabelled pair of concepts. *)
Lemma graph_mirrors_latest_rows_witness :
  let calls := [StoreEpisodic 1 "open_youtube" [("youtube_link", JStr "yt/9")];
                LinkConcepts 1 "loops" "recursion" "related_to";
                LinkConcepts 1 "loops" "recursion" "depends_on"] in
  Forall text_links calls /\
  mirror_latest (run_calls (W := Demo.world) calls init).
Proof.
  intros calls.
  assert (Htexts : Forall text_links calls).
  { repeat constructor. }
  split; [exact Htexts |].
  exact (graph_mirrors_latest_rows (W := Demo.world) calls Htexts).
Defined.

(** ** Nothing but the sweep ever deletes *)

Lemma has_node_add_node (k n : string) (g : DiGraph.t) :
  has_node k g = true -> has_node k (add_node n g) = true.
Proof.
  unfold add_node. destruct (has_node n g); [trivial |].
  unfold has_node, dict_mem. rewrite dict_get_snoc.
  now destruct (dict_get k g).
Qed.

Lemma has_node_add_edge (k u v : string) (d : EdgeData) (g : DiGraph.t) :
  has_node k g = true -> has_node k (add_edge u v d g) = true.
Proof.
  intros H. unfold add_edge.
  assert (H1 : has_node k (add_node v (add_node u g)) = true)
    by now apply has_node_add_node, has_node_add_node.
  unfold has_node, dict_mem in *. rewrite dict_get_set.
  now destruct (String.eqb u k).
Qed.

Lemma graph_only_grows_refl (m : Manager) : graph_only_grows m m.
Proof.
  split; [exists []; now rewrite app_nil_r | split; trivial].
Qed.

Lemma graph_only_grows_trans (a b c : Manager) :
  graph_only_grows a b -> graph_only_grows b c -> graph_only_grows a c.
Proof.
  intros ((r1 & T1) & N1 & E1) ((r2 & T2) & N2 & E2).
  split; [| split; auto].
  exists (r1 ++ r2). now rewrite T2, T1, app_assoc.
Qed.

Lemma graph_only_grows_same (m m' : Manager) :
  knowledge_graph_table m' = knowledge_graph_table m ->
  knowledge_graph m' = knowledge_graph m ->
  graph_only_grows m m'.
Proof.
  intros Ht Hg. unfold graph_only_grows. rewrite Ht, Hg.
  split; [exists []; now rewrite app_nil_r | split; trivial].
Qed.

Lemma entries_only_grow_same (m m' : Manager) :
  memory_entries m' = memory_entries m -> entries_only_grow m m'.
Proof. intros H. exists []. now rewrite H, app_nil_r. Qed.

Lemma entries_only_grow_refl (m : Manager) : entries_only_grow m m.
Proof. exists []. now rewrite app_nil_r. Qed.

Lemma entries_only_grow_trans (a b c : Manager) :
  entries_only_grow a b -> entries_only_grow b c -> entries_only_grow a c.
Proof.
  intros (r1 & T1) (r2 & T2). exists (r1 ++ r2).
  now rewrite T2, T1, app_assoc.
Qed.

Section AppendOnly.
Context {W : World}.

Lemma _add_to_graph_only_grows (u : Z) (s t r : string) (w : Q) :
  respects graph_only_grows (_add_to_graph u s t r w).
Proof.
  intros m. rewrite _add_to_graph_run. split; [| split]; simpl.
  - eexists. reflexivity.
  - intros n. apply has_node_add_edge.
  - intros n v. apply neighbors_add_edge_old.
Qed.

Lemma run_call_graph_only_grows (call : Call) :
  respects graph_only_grows (run_call call).
Proof.
  pose proof graph_only_grows_refl as Hr.
  pose proof graph_only_grows_trans as Ht.
  assert (Hnow : respects graph_only_grows now)
    by (intros m; now apply graph_only_grows_same).
  assert (Hdelete : forall keep,
             respects graph_only_grows (delete_memory_entries keep))
    by (intros keep m; now apply graph_only_grows_same).
  assert (Hstore : forall entry, respects graph_only_grows (_store_entry entry)).
  { intros entry m. unfold _store_entry.
    destruct (encode (content entry)); now apply graph_only_grows_same. }
  destruct call; cbn [run_call];
    unfold store_conversation, store_episodic, store_semantic,
      create_learning_path_graph, cleanup_old_memories, link_concepts, as_str;
    steps_with ltac:(on_step ltac:(apply Hnow) ltac:(apply Hstore)
                             ltac:(apply _add_to_graph_only_grows) fail
                             ltac:(apply Hdelete)).
Qed.

Lemma run_call_entries_only_grow (call : Call) :
  is_cleanup call = false -> respects entries_only_grow (run_call call).
Proof.
  intros Hcall.
  pose proof entries_only_grow_refl as Hr.
  pose proof entries_only_grow_trans as Ht.
  assert (Hnow : respects entries_only_grow now)
    by (intros m; now apply entries_only_grow_same).
  assert (Hadd : forall u s t r w,
             respects entries_only_grow (_add_to_graph u s t r w))
    by (intros u s t r w m; now apply entries_only_grow_same).
  assert (Hstore : forall entry, respects entries_only_grow (_store_entry entry)).
  { intros entry m. unfold _store_entry.
    destruct (encode (content entry)); [| now apply entries_only_grow_same].
    eexists. reflexivity. }
  destruct call; try discriminate Hcall; cbn [run_call];
    unfold store_conversation, store_episodic, store_semantic,
      create_learning_path_graph, link_concepts, as_str;
    steps_with ltac:(on_step ltac:(apply Hnow) ltac:(apply Hstore)
                             ltac:(apply Hadd) fail fail).
Qed.

(** X10.  No call removes or rewrites a row of the edge table, and none
    removes a node or an edge of the graph; the entry table too only gets
    rows appended as long as no sweep is among the calls. *)
Theorem only_the_sweep_deletes (calls : list Call) (m : Manager) :
  graph_only_grows m (run_calls calls m) /\
  (forallb (fun c => negb (is_cleanup c)) calls = true ->
   entries_only_grow m (run_calls calls m)).
Proof.
  split.
  - revert m. induction calls as [| call calls IH]; intros m; simpl.
    + apply graph_only_grows_refl.
    + eapply graph_only_grows_trans; [| apply IH].
      apply (run_call_graph_only_grows call m).
  - revert m. induction calls as [| call calls IH]; intros m Hc; simpl.
    + apply entries_only_grow_refl.
    + simpl in Hc. apply andb_true_iff in Hc as [Hcall Hc].
      eapply entries_only_grow_trans; [| now apply IH].
      apply (run_call_entries_only_grow call).
      now apply negb_true_iff.
Qed.

End AppendOnly.

(** X10 at work on the writes of user 2. *)
Lemma only_the_sweep_deletes_witness :
  entries_only_grow recorded_actions
    (run_calls (W := Demo.world) writes_of_user_2 recorded_actions).
Proof.
  apply (only_the_sweep_deletes (W := Demo.world) writes_of_user_2
           recorded_actions).
  reflexivity.
Defined.

(** ** The edges that [store_episodic] derives from the result *)

Section EpisodicLinks.
Context {W : World}.

Lemma store_episodic_run (u : Z) (action : string) (result : dict json)
    (e : Vec) (m : Manager) :
  encode ("Action: " ++ action)%string = Some e ->
  store_episodic u action result m =
  ((match dict_get "youtube_link" result with
    | Some v =>
        link <- as_str v ;;
        _add_to_graph u action link "created_link" default_weight
    | None => ret tt
    end) ;;;
   (match dict_get "playlist_name" result with
    | Some v =>
        name <- as_str v ;;
        _add_to_graph u action name "created_playlist" default_weight
    | None => ret tt
    end))
    (mkManager
       (memory_entries m
          ++ [mkEntryRow u ("Action: " ++ action)%string episodic result
                         (clock (clock_reads m)) e])
       (knowledge_graph_table m) (knowledge_graph m) (S (clock_reads m))).
Proof.
  intros He. unfold store_episodic.
  unfold bind at 1. unfold now at 1. cbn [fst snd].
  unfold bind at 1. erewrite _store_entry_ok by exact He. reflexivity.
Qed.

(** X11.  When [store_episodic] succeeds in storing the entry: a text under
    ["youtube_link"] becomes a ["created_link"] edge from the action to it,
    a text under ["playlist_name"] a ["created_playlist"] edge, each with
    its row in the edge table and each listed among the related concepts of
    the action; a result with neither key leaves the edge table and the
    graph as they were. *)
Theorem store_episodic_links (u : Z) (action : string) (result : dict json)
    (e : Vec) (m : Manager) :
  encode ("Action: " ++ action)%string = Some e ->
  let m' := exec (store_episodic u action result) m in
  (forall link,
      dict_get "youtube_link" result = Some (JStr link) ->
      In link (get_related_concepts u action m') /\
      In (u, action, link, "created_link")
         (map edge_key (knowledge_graph_table m'))) /\
  (forall name,
      dict_get "playlist_name" result = Some (JStr name) ->
      (dict_get "youtube_link" result = None \/
       exists link, dict_get "youtube_link" result = Some (JStr link)) ->
      In name (get_related_concepts u action m') /\
      In (u, action, name, "created_playlist")
         (map edge_key (knowledge_graph_table m'))) /\
  (dict_get "youtube_link" result = None ->
   dict_get "playlist_name" result = None ->
   knowledge_graph_table m' = knowledge_graph_table m /\
   knowledge_graph m' = knowledge_graph m).
Proof.
  intros He m'. subst m'. unfold exec.
  rewrite (store_episodic_run u action result e m He).
  split; [| split].
  - intros link Hl. rewrite Hl.
    destruct (dict_get "playlist_name" result) as [[| | | name | |] |];
      unfold bind, as_str, ret, raise; rewrite ?_add_to_graph_run;
      cbn [fst snd]; rewrite ?_add_to_graph_run; cbn [fst snd];
      (split;
       [ apply related_of_neighbor; cbn [knowledge_graph];
         repeat first [ apply neighbors_add_edge_new
                      | apply neighbors_add_edge_old ]
       | cbn [knowledge_graph_table]; rewrite !map_app, !in_app_iff;
         simpl; tauto ]).
  - intros name Hn [Hy | (link & Hy)]; rewrite Hn, Hy;
      unfold bind, as_str, ret, raise; rewrite ?_add_to_graph_run;
      cbn [fst snd]; rewrite ?_add_to_graph_run; cbn [fst snd];
      (split;
       [ apply related_of_neighbor; cbn [knowledge_graph];
         repeat first [ apply neighbors_add_edge_new
                      | apply neighbors_add_edge_old ]
       | cbn [knowledge_graph_table]; rewrite !map_app, !in_app_iff;
         simpl; tauto ]).
  - intros Hy Hn. rewrite Hy, Hn. split; reflexivity.
Qed.

End EpisodicLinks.

(** X11 at work on the call that [create_playlist_tool] makes. *)
Lemma store_episodic_links_witness :
  In "Algorithms"
     (get_related_concepts 1 "create_playlist"
        (exec (store_episodic (W := Demo.world) 1 "create_playlist"
                 [("playlist_name", JStr "Algorithms");
                  ("playlist_url", JStr "yt/list")]) init)).
Proof.
  destruct (store_episodic_links (W := Demo.world) 1 "create_playlist"
              [("playlist_name", JStr "Algorithms");
               ("playlist_url", JStr "yt/list")] [1; 0]%Q init eq_refl)
    as (_ & Hname & _).
  apply (Hname "Algorithms" eq_refl). now left.
Defined.

(** ** A learning day shows up among the notes of its concept *)

Lemma place_neighbor_day (g : DiGraph.t) (concept user_concept : string)
    (ctx : GraphContext) (neighbor : string) :
  contains "day" (lower (clean_neighbor neighbor)) = true ->
  In (clean_neighbor neighbor)
     (related_notes (place_neighbor g concept user_concept ctx neighbor)).
Proof.
  intros H. unfold place_neighbor. rewrite H, orb_true_r. simpl.
  apply in_or_app. right. now left.
Qed.

Lemma day_label_has_day (day : Z) :
  contains "day" (lower ("day_" ++ str_int day)) = true.
Proof.
  rewrite lower_app. rewrite contains_unfold. reflexivity.
Qed.

Section LearningDay.
Context {W : World}.

Lemma day_node_linked (u day : Z) (concept : string) (resources : list string)
    (m : Manager) :
  In (user_node u ("day_" ++ str_int day))
     (neighbors (user_node u concept)
        (knowledge_graph
           (exec (create_learning_path_graph u day concept resources) m))).
Proof.
  unfold exec, create_learning_path_graph. unfold bind at 1.
  rewrite link_concepts_run.
  match goal with
  | |- In _ (neighbors _ (knowledge_graph (snd (?c ?m1)))) =>
      assert (H : respects graph_only_grows c)
  end.
  { pose proof graph_only_grows_refl as Hr.
    pose proof graph_only_grows_trans as Ht.
    unfold link_concepts.
    steps_with ltac:(on_step fail fail ltac:(apply _add_to_graph_only_grows)
                             fail fail). }
  match goal with
  | |- In _ (neighbors _ (knowledge_graph (snd (?c ?m1)))) =>
      destruct (H m1) as (_ & _ & Hedges)
  end.
  apply Hedges. cbn [knowledge_graph]. apply neighbors_add_edge_new.
Qed.

(** X12.  After [create_learning_path_graph] for a day and a concept, the
    graph context of any query in which that concept is found lists the
    day's label among the related notes. *)
Theorem learning_day_among_notes (u day : Z) (concept query : string)
    (resources : list string) (m : Manager) :
  In concept (_extract_concepts query) ->
  In ("day_" ++ str_int day)%string
     (related_notes
        (get_graph_context u query
           (exec (create_learning_path_graph u day concept resources) m))).
Proof.
  intros Hc. unfold get_graph_context.
  apply fold_classified with (x := concept)
    (P := fun ctx => In ("day_" ++ str_int day)%string (related_notes ctx)).
  - intros c y. apply visit_concept_grows.
  - intros c c' Hin (Hnotes & _). now apply Hnotes.
  - intros c. rewrite visit_concept_fold.
    apply fold_classified with (x := user_node u ("day_" ++ str_int day))
      (P := fun ctx => In ("day_" ++ str_int day)%string (related_notes ctx)).
    + intros c0 y. apply place_neighbor_grows.
    + intros c0 c' Hin (Hnotes & _). now apply Hnotes.
    + intros c0.
      rewrite <- (clean_neighbor_user_node u ("day_" ++ str_int day)) at 1.
      apply place_neighbor_day. rewrite clean_neighbor_user_node.
      apply day_label_has_day.
    + apply day_node_linked.
  - exact Hc.
Qed.

End LearningDay.

(** X12 at work: day 3 teaches "recursion". *)
Lemma learning_day_among_notes_witness :
  In "day_3"
     (related_notes
        (get_graph_context 1 "How does recursion work?"
           (exec (create_learning_path_graph (W := Demo.world) 1 3 "recursion"
                    ["youtube.com/watch"]) init))).
Proof.
  apply (learning_day_among_notes (W := Demo.world) 1 3 "recursion"
           "How does recursion work?" ["youtube.com/watch"] init).
  now left.
Defined.

(** ** How many hits a search returns, and the fused context *)

Section SearchSize.
Context {W : World}.

(** X14.  When the query can be embedded, [semantic_search] returns
    [min limit n] hits for a limit that is not negative and [n - |limit|]
    hits (none if that is negative) for a negative one, where [n] is the
    number of the user's entries above the threshold. *)
Theorem semantic_search_size (u : Z) (q : string) (k : Z) (m : Manager)
    (qe : Vec) :
  encode q = Some qe ->
  exists hits,
    semantic_search u q k m = Ok hits /\
    (0 <= k ->
     List.length hits = Nat.min (Z.to_nat k) (List.length (matches qe u m))) /\
    (k < 0 ->
     List.length hits = (List.length (matches qe u m) - Z.to_nat (- k))%nat).
Proof.
  intros He. rewrite (semantic_search_run u q k m qe He).
  eexists. split; [reflexivity |].
  assert (Hlen : List.length (sort_desc more_similar (matches qe u m)) =
                 List.length (matches qe u m))
    by apply Permutation_length, sort_desc_perm.
  unfold slice_to. split; intros Hk.
  - apply Z.leb_le in Hk. rewrite Hk, length_firstn. now rewrite Hlen.
  - assert (Hneg : (0 <=? k) = false) by (apply Z.leb_gt; lia).
    rewrite Hneg, length_firstn, Hlen. lia.
Qed.

Lemma ranked_hits_sorted (k : Z) (hits : list Hit) :
  by_similarity (slice_to k (sort_desc more_similar hits)).
Proof.
  assert (Hs : by_similarity (sort_desc more_similar hits)).
  { unfold by_similarity.
    apply StronglySorted_weaken with (R := fun a b => more_similar b a = false).
    - intros a b. apply more_similar_ahead.
    - apply sort_desc_sorted; [apply more_similar_asym |].
      intros a b c. rewrite !more_similar_ahead. intros H1 H2.
      now apply Qle_trans with (hit_similarity b). }
  unfold slice_to. destruct (0 <=? k); now apply StronglySorted_firstn.
Qed.

(** X15.  [get_contextual_memory] fails when the query cannot be embedded.
    Otherwise it holds at most five semantic matches, ranked by similarity
    and all above one half; at most five recent actions, which are the
    first five of [recall_episodic] without a filter, newest first; and the
    graph context of the query. *)
Theorem get_contextual_memory_spec (u : Z) (q : string) (m : Manager) :
  (encode q = None -> get_contextual_memory u q m = Raise EmbeddingError) /\
  (forall c,
      get_contextual_memory u q m = Ok c ->
      (List.length (semantic_matches c) <= 5)%nat /\
      by_similarity (semantic_matches c) /\
      Forall (fun h => (1 # 2 < hit_similarity h)%Q) (semantic_matches c) /\
      recent_actions c = firstn 5 (recall_episodic u None m) /\
      (List.length (recent_actions c) <= 5)%nat /\
      newest_first (recent_actions c) /\
      graph_context c = get_graph_context u q m).
Proof.
  unfold get_contextual_memory. split.
  - intros He. unfold semantic_search. now rewrite He.
  - intros c. destruct (semantic_search u q 5 m) as [hits | e] eqn:Hs;
      [| discriminate].
    intros [= <-]. cbn [semantic_matches recent_actions graph_context].
    destruct (encode q) as [qe |] eqn:He;
      [| unfold semantic_search in Hs; rewrite He in Hs; discriminate].
    rewrite (semantic_search_run u q 5 m qe He) in Hs. injection Hs as <-.
    split; [apply (firstn_le_length 5) |].
    split; [apply ranked_hits_sorted |].
    split.
    { apply Forall_forall. intros h Hh. apply slice_to_incl in Hh.
      apply (Permutation_in _ (sort_desc_perm more_similar _)) in Hh.
      now apply (proj1 (Forall_forall _ _) (matches_above_half qe u m)). }
    split; [reflexivity |].
    split; [apply (firstn_le_length 5) |].
    split; [| reflexivity].
    change (slice_to 5 ?l) with (firstn 5 l).
    apply StronglySorted_firstn. rewrite recall_episodic_map.
    apply rows_newest_first.
Qed.

End SearchSize.

(** X14 on the three stored entries. *)
Lemma semantic_search_size_witness :
  exists hits,
    semantic_search (W := Demo.world) 1 "loops" (-1) three_entries = Ok hits /\
    List.length hits = 2%nat.
Proof.
  destruct (semantic_search_size (W := Demo.world) 1 "loops" (-1) three_entries
              [3 # 5; 4 # 5]%Q eq_refl) as (hits & Hs & _ & Hneg).
  exists hits. split; [exact Hs |]. rewrite Hneg by lia. reflexivity.
Defined.

(** ** What a sweep leaves for the reads *)

Lemma filter_comm {A : Type} (f g : A -> bool) (l : list A) :
  filter f (filter g l) = filter g (filter f l).
Proof.
  induction l as [| x l IH]; simpl; [reflexivity |].
  destruct (f x) eqn:Hf, (g x) eqn:Hg; simpl; rewrite ?Hf, ?Hg, IH; reflexivity.
Qed.

Section AfterSweep.
Context {W : World}.

(** X16.  After [cleanup_old_memories] for a user whose cutoff is a
    [datetime], every conversation that [recall_conversation] returns for
    that user is at least as recent as the cutoff; when the cutoff is not a
    [datetime] the conversations recalled are what they were.  Either way
    [recall_episodic], the last link, the playlists, the related concepts
    and the graph context are what they were. *)
Theorem reads_after_sweep (u days : Z) (m : Manager) :
  let cutoff := clock (clock_reads m) - days * microseconds_per_day in
  let m' := exec (cleanup_old_memories u days) m in
  (representable_cutoff (clock (clock_reads m)) days ->
   forall limit x,
     In x (recall_conversation u limit m') -> cutoff <= rc_timestamp x) /\
  (~ representable_cutoff (clock (clock_reads m)) days ->
   forall limit, recall_conversation u limit m' = recall_conversation u limit m) /\
  (forall action, recall_episodic u action m' = recall_episodic u action m) /\
  get_last_youtube_link u m' = get_last_youtube_link u m /\
  get_user_playlists u m' = get_user_playlists u m /\
  (forall concept,
      get_related_concepts u concept m' = get_related_concepts u concept m) /\
  (forall query, get_graph_context u query m' = get_graph_context u query m).
Proof.
  intros cutoff m'.
  destruct (representable_cutoff_dec (clock (clock_reads m)) days)
    as [Hin | Hout].
  - assert (Hm' : m' = mkManager (filter (swept u cutoff) (memory_entries m))
                         (knowledge_graph_table m) (knowledge_graph m)
                         (S (clock_reads m))).
    { subst m'. unfold exec. now rewrite (cleanup_old_memories_run u days m Hin). }
    assert (Hepisodic : forall action,
               recall_episodic u action m' = recall_episodic u action m).
    { intros action. rewrite !recall_episodic_map, Hm'. simpl.
      rewrite filter_comm. do 3 f_equal.
      apply filter_absorb. intros r Hr. unfold episodic_of in Hr.
      apply andb_true_iff in Hr as [Hr _]. apply andb_true_iff in Hr as [_ Hty].
      apply MemoryType_eqb_eq in Hty. unfold swept. rewrite Hty. simpl.
      now rewrite andb_false_r. }
    split; [| split; [| split; [exact Hepisodic | split; [| split; [| split]]]]].
    + intros _ limit x Hx. rewrite recall_conversation_map in Hx.
      apply in_map_iff in Hx as (row & <- & Hrow). simpl.
      apply sql_limit_incl in Hrow.
      apply (Permutation_in _ (sort_desc_perm later_row _)) in Hrow.
      apply filter_In in Hrow as [Hrow Hconv].
      rewrite Hm' in Hrow. simpl in Hrow. apply filter_In in Hrow as [_ Hkeep].
      unfold conversation_of in Hconv. unfold swept in Hkeep.
      apply andb_true_iff in Hconv as [Hu Hty].
      rewrite Hu, Hty, andb_true_r in Hkeep. simpl in Hkeep.
      apply negb_true_iff, Z.ltb_ge in Hkeep. exact Hkeep.
    + intros Hout. contradiction.
    + unfold get_last_youtube_link. now rewrite Hepisodic.
    + unfold get_user_playlists. now rewrite Hepisodic.
    + intros concept. rewrite Hm'. reflexivity.
    + intros query. rewrite Hm'. reflexivity.
  - assert (Hm' : m' = mkManager (memory_entries m) (knowledge_graph_table m)
                         (knowledge_graph m) (S (clock_reads m))).
    { subst m'. unfold exec.
      now rewrite (cleanup_old_memories_overflow u days m Hout). }
    split; [intros Hin; contradiction |].
    rewrite Hm'. repeat split.
Qed.

End AfterSweep.

(** X16 on a store holding a conversation forty days old and one of today:
    after a sweep at thirty days only today's is recalled. *)
Lemma reads_after_sweep_witness :
  let old := 1700000000000000 - 40 * microseconds_per_day in
  let talk := mkEntryRow 1 "User: a" conversation [] old [1; 0]%Q in
  let chat := mkEntryRow 1 "User: b" conversation [] 1700000000000000
                         [1; 0]%Q in
  let m := mkManager [talk; chat] [] DiGraph.empty 0 in
  let m' := exec (cleanup_old_memories (W := Demo.frozen) 1 30) m in
  representable_cutoff (clock (World := Demo.frozen) (clock_reads m)) 30 /\
  forall x, In x (recall_conversation 1 10 m') ->
            1700000000000000 - 30 * microseconds_per_day <= rc_timestamp x.
Proof.
  intros old talk chat m m'.
  assert (Hin : representable_cutoff
                  (clock (World := Demo.frozen) (clock_reads m)) 30).
  { vm_compute. repeat split; discriminate. }
  split; [exact Hin |].
  destruct (reads_after_sweep (W := Demo.frozen) 1 30 m) as (Hrecent & _).
  intros x Hx. exact (Hrecent Hin 10 x Hx).
Defined.

(** ** A stored concept is found by searching for it *)

Section StoreThenSearch.
Context {W : World}.

Lemma store_semantic_entries (u : Z) (concept : string)
    (related : list string) (e : Vec) (m : Manager) :
  encode concept = Some e ->
  memory_entries (exec (store_semantic u concept related) m) =
  memory_entries m
    ++ [mkEntryRow u concept semantic
          [("related_concepts", JArr (map JStr related))]
          (clock (clock_reads m)) e].
Proof.
  intros He. unfold exec, store_semantic.
  unfold bind at 1. unfold now at 1. cbn [fst snd].
  unfold bind at 1. erewrite _store_entry_ok by exact He.
  match goal with
  | |- memory_entries (snd (?c ?m1)) = _ =>
      assert (H : respects keeps_entries c)
  end.
  { pose proof keeps_entries_refl as Hr. pose proof keeps_entries_trans as Ht.
    steps_with ltac:(on_step fail fail ltac:(apply _add_to_graph_keeps_entries)
                             fail fail). }
  rewrite (H _). reflexivity.
Qed.

(** X17.  When the model gives a text a similarity above one half to
    itself, a concept stored by [store_semantic] is among the hits of a
    search for the same text, provided the limit is at least the number of
    the user's entries above the threshold. *)
Theorem stored_concept_is_found (u : Z) (concept : string)
    (related : list string) (e : Vec) (s : Q) (limit : Z) (m : Manager) :
  encode concept = Some e ->
  similarity e e = Some s ->
  (1 # 2 < s)%Q ->
  let m' := exec (store_semantic u concept related) m in
  Z.of_nat (List.length (matches e u m')) <= limit ->
  exists hits,
    semantic_search u concept limit m' = Ok hits /\
    In (mkHit concept [("related_concepts", JArr (map JStr related))]
              (clock (clock_reads m)) s) hits.
Proof.
  intros He Hs Hhalf m' Hlimit.
  rewrite (semantic_search_run u concept limit m' e He).
  eexists. split; [reflexivity |].
  unfold slice_to.
  assert (Hk : (0 <=? limit) = true) by (apply Z.leb_le; lia).
  rewrite Hk, firstn_all2.
  - apply (Permutation_in _ (Permutation_sym (sort_desc_perm more_similar _))).
    unfold matches. subst m'.
    rewrite (store_semantic_entries u concept related e m He).
    rewrite filter_app, flat_map_app. apply in_or_app. right.
    simpl. rewrite Z.eqb_refl. simpl. unfold hit_of. simpl. rewrite Hs.
    destruct (Qlt_le_dec (1 # 2) s) as [_ | Hle]; [now left |].
    exfalso. now apply (Qlt_not_le _ _ Hhalf).
  - rewrite (Permutation_length (sort_desc_perm more_similar _)). lia.
Qed.

End StoreThenSearch.

(** X17 on a first concept stored in the empty manager. *)
Lemma stored_concept_is_found_witness :
  exists hits,
    semantic_search (W := Demo.world) 1 "loops" 5
      (exec (store_semantic (W := Demo.world) 1 "loops" ["functions"]) init)
    = Ok hits /\
    In (mkHit "loops" [("related_concepts", JArr [JStr "functions"])]
              1700000000000000 (625 # 625)) hits.
Proof.
  apply (stored_concept_is_found (W := Demo.world) 1 "loops" ["functions"]
           [3 # 5; 4 # 5]%Q (625 # 625) 5 init).
  - reflexivity.
  - reflexivity.
  - reflexivity.
  - vm_compute. discriminate.
Defined.

(** ** Each related concept is listed once *)

Lemma NoDup_map_on {A B : Type} (f : A -> B) (l : list A) :
  (forall x y, In x l -> In y l -> f x = f y -> x = y) ->
  NoDup l -> NoDup (map f l).
Proof.
  intros Hinj Hl. induction Hl as [| x l Hx Hl IH]; simpl; constructor.
  - intros Hfx. apply in_map_iff in Hfx as (y & Hy & Hin).
    apply Hx. rewrite <- (Hinj y x); auto; [now right | now left].
  - apply IH. intros a b Ha Hb. apply Hinj; now right.
Qed.

Section ListedOnce.
Context {W : World}.

Let keeps_simple (m m' : Manager) : Prop :=
  simple_graph (knowledge_graph m) -> simple_graph (knowledge_graph m').

Lemma run_call_keeps_simple (call : Call) : respects keeps_simple (run_call call).
Proof.
  assert (Hr : forall m, keeps_simple m m) by (intros m H; exact H).
  assert (Ht : forall a b c, keeps_simple a b -> keeps_simple b c ->
                             keeps_simple a c)
    by (unfold keeps_simple; auto).
  assert (Hnow : respects keeps_simple now) by (intros m Hm; exact Hm).
  assert (Hdelete : forall keep, respects keeps_simple (delete_memory_entries keep))
    by (intros keep m Hm; exact Hm).
  assert (Hstore : forall entry, respects keeps_simple (_store_entry entry)).
  { intros entry m Hm. unfold _store_entry.
    now destruct (encode (content entry)). }
  assert (Hadd : forall u s t r w, respects keeps_simple (_add_to_graph u s t r w)).
  { intros u s t r w m Hm. rewrite _add_to_graph_run. simpl.
    now apply simple_graph_add_edge. }
  destruct call; cbn [run_call];
    unfold store_conversation, store_episodic, store_semantic,
      create_learning_path_graph, cleanup_old_memories, link_concepts, as_str;
    steps_with ltac:(on_step ltac:(apply Hnow) ltac:(apply Hstore)
                             ltac:(apply Hadd) fail ltac:(apply Hdelete)).
Qed.

(** X18.  In a manager that started empty, whatever calls were made and
    however often a pair was linked, [get_related_concepts] lists no
    concept twice. *)
Theorem related_concepts_listed_once (calls : list Call) (u : Z)
    (concept : string) :
  NoDup (get_related_concepts u concept (run_calls calls init)).
Proof.
  assert (H : forall m,
             simple_graph (knowledge_graph m) /\ user_scoped (knowledge_graph m) ->
             simple_graph (knowledge_graph (run_calls calls m)) /\
             user_scoped (knowledge_graph (run_calls calls m))).
  { induction calls as [| call calls IH]; intros m Hm; simpl; [exact Hm |].
    apply IH. destruct Hm as [Hs Hu]. split.
    - now apply (run_call_keeps_simple call m).
    - now apply (run_call_keeps_scoped call m). }
  destruct (H init (conj simple_graph_empty user_scoped_empty)) as [Hs Hu].
  rewrite get_related_concepts_neighbors.
  apply NoDup_map_on; [| apply Hs].
  intros x y Hx Hy Hxy.
  destruct (Hu _ _ Hx) as (ux & ax & bx & Hnx & ->).
  destruct (Hu _ _ Hy) as (uy & ay & byy & Hny & ->).
  rewrite !clean_neighbor_user_node in Hxy. subst byy.
  apply user_node_inj in Hnx as [<- _]. apply user_node_inj in Hny as [<- _].
  reflexivity.
Qed.

End ListedOnce.
